(** * menu-tree-api: the slug, order and tree-mutation logic of [MenusService]

    A shallow embedding of [utils/slug.util.ts] ([isEmptyOrHyphens],
    [unicodeSlug]) and of the two variants of [menus.service.ts]
    ([ensureUniqueSlug], [create], [findTreeById], [findOne], [update],
    [remove]) over a relational store of menu rows. *)

From Stdlib Require Import String Ascii DecimalString DecimalN.
From Stdlib Require Import List NArith ZArith Bool Lia Permutation.
From Equations Require Import Equations.
Import ListNotations.

Set Implicit Arguments.

(** ** JavaScript strings

    A string is the list of its code points, as the [u]-flagged regular
    expression of [unicodeSlug] iterates it.  Every character the other
    regular expressions and [trim] look at (white space, [-]) lies in the
    basic plane, where code points and UTF-16 code units coincide. *)

Definition codepoint := N.
Definition jsstring := list codepoint.

Definition str (s : string) : jsstring :=
  map N_of_ascii (list_ascii_of_string s).

Definition hyphen : codepoint := 0x2D%N.

Definition isHyphen (c : codepoint) : bool := N.eqb c hyphen.

(** [\s], and what [String.prototype.trim] strips: ECMAScript's WhiteSpace
    and LineTerminator productions. *)
Definition isWhiteSpace (c : codepoint) : bool :=
  existsb (N.eqb c)
    [0x09; 0x0A; 0x0B; 0x0C; 0x0D; 0x20; 0xA0; 0x1680; 0x2028; 0x2029;
     0x202F; 0x205F; 0x3000; 0xFEFF]%N
  || (N.leb 0x2000 c && N.leb c 0x200A).

(** [\w] without the [u] and [i] flags. *)
Definition isWord (c : codepoint) : bool :=
  (N.leb 0x30 c && N.leb c 0x39) || (N.leb 0x41 c && N.leb c 0x5A)
  || (N.leb 0x61 c && N.leb c 0x7A) || N.eqb c 0x5F.

(** [!s] on a string. *)
Definition isEmpty (s : jsstring) : bool :=
  match s with [] => true | _ :: _ => false end.

Fixpoint dropWhile (p : codepoint -> bool) (s : jsstring) : jsstring :=
  match s with
  | [] => []
  | c :: s' => if p c then dropWhile p s' else s
  end.

Definition dropWhileEnd (p : codepoint -> bool) (s : jsstring) : jsstring :=
  rev (dropWhile p (rev s)).

(** [s.trim()] *)
Definition trim (s : jsstring) : jsstring :=
  dropWhileEnd isWhiteSpace (dropWhile isWhiteSpace s).

(** [s.slice(0, n)] *)
Definition slice0 (n : nat) (s : jsstring) : jsstring := firstn n s.

(** [jsstring] equality, [===] on strings. *)
Definition streq (a b : jsstring) : bool :=
  if list_eq_dec N.eq_dec a b then true else false.

(** ** Global regular-expression replacement

    The regular expressions of the sources never match the empty string,
    so a pattern is given by its matcher at one position: [re at0 s] is
    [Some k] when the pattern matches exactly the first [S k] code points of
    [s], where [at0] tells whether [s] starts at index 0 of the subject (the
    only place where [^] holds).  [replace_g re by_ true s] is
    [s.replace(/re/g, by_)]: the leftmost match is replaced and the scan
    resumes behind it. *)

Definition regexp := bool -> jsstring -> option nat.

Equations? replace_g (re : regexp) (by_ : jsstring) (at0 : bool) (s : jsstring)
  : jsstring by wf (length s) lt :=
  replace_g re by_ at0 [] := [];
  replace_g re by_ at0 (c :: s') with re at0 (c :: s') => {
    | Some k := by_ ++ replace_g re by_ false (skipn k s');
    | None := c :: replace_g re by_ false s' }.
Proof.
  all: try rewrite length_skipn; simpl; lia.
Qed.

(** Length of the longest prefix of [s] whose code points satisfy [p]: what a
    greedy [p+] consumes. *)
Fixpoint span (p : codepoint -> bool) (s : jsstring) : nat :=
  match s with
  | c :: s' => if p c then S (span p s') else 0
  | [] => 0
  end.

(** [/[p]+/] *)
Definition re_plus (p : codepoint -> bool) : regexp :=
  fun _ s => match span p s with 0 => None | S k => Some k end.

(** [/[p]/] *)
Definition re_one (p : codepoint -> bool) : regexp :=
  fun _ s => match s with
             | c :: _ => if p c then Some 0 else None
             | [] => None
             end.

(** [/^-+|-+$/]: the first alternative needs index 0; the second needs the
    greedy run of hyphens to reach the end of the subject (giving hyphens
    back cannot make [$] hold). *)
Definition re_edge_hyphens : regexp :=
  fun at0 s =>
    match (if at0 then re_plus isHyphen at0 s else None) with
    | Some k => Some k
    | None =>
        match span isHyphen s with
        | 0 => None
        | S k => if Nat.eqb (S k) (length s) then Some k else None
        end
    end.

(** ** utils/slug.util.ts *)

Definition isEmptyOrHyphens (s : option jsstring) : bool :=
  match s with
  | None => true
  | Some s =>
      if isEmpty s then true
      else isEmpty (trim (replace_g (re_one isHyphen) [] true s))
  end.

Section Slug.

(** The engine's Unicode data: [String.prototype.normalize('NFKC')] and the
    general categories [\p{L}] and [\p{N}]. *)
Variable normalizeNFKC : jsstring -> jsstring.
Variables isL isN : codepoint -> bool.

(** The class [[\p{L}\p{N}\-_.~]]. *)
Definition isSlugChar (c : codepoint) : bool :=
  isL c || isN c || N.eqb c 0x2D || N.eqb c 0x5F || N.eqb c 0x2E
  || N.eqb c 0x7E.

Definition unicodeSlug (input : jsstring) : jsstring :=
  if isEmpty input then []
  else
    let normalized := trim (normalizeNFKC input) in
    let s := replace_g (re_plus isWhiteSpace) [hyphen] true normalized in
    let s := replace_g (re_one (fun c => negb (isSlugChar c))) [] true s in
    let s := replace_g re_edge_hyphens [] true
               (replace_g (re_plus isHyphen) [hyphen] true s) in
    s.

End Slug.

(** ** Numbers in template literals

    [`${i}`] for a non-negative integer [i]: its decimal digits. *)

Definition numstr (i : N) : jsstring :=
  str (NilEmpty.string_of_uint (N.to_uint i)).

(** ** Entities, rows and exceptions *)

(** A relation property of an entity is [undefined] unless the query that
    produced the entity asked for it ([relations: [...]]) or the service
    assigned it. *)
Inductive Rel (A : Type) : Type :=
| NotLoaded
| Loaded (a : A).
Arguments NotLoaded {A}.

(** [Menu] (entities/menu.entity.ts).  [id] is [None] on an entity that
    [repo.create] has built and [save] has not yet inserted.  A parent entity
    is kept as its primary key, the only part of it the service and [save]
    read; [Loaded None] is [parent = null]. *)
#[warnings="-register-all"]
Inductive Menu : Type := mkMenu {
  id : option Z;
  name : jsstring;
  slug : jsstring;
  order : Z;
  isActive : bool;
  parent : Rel (option Z);
  children : Rel (list Menu)
}.

(** A row of table [menus]. *)
Record Row : Type := mkRow {
  row_id : Z;
  row_name : jsstring;
  row_slug : jsstring;
  row_order : Z;
  row_isActive : bool;
  row_parentId : option Z
}.

(** The table and its [id] sequence.  A sequence is not transactional: a
    value drawn by a failed or rolled-back insert is not given back. *)
Record Store : Type := mkStore {
  rows : list Row;
  seq : Z
}.

Inductive Exception : Type :=
| NotFoundException (message : string)
| BadRequestException (message : string)
| QueryFailedError (code : string).

Inductive Result (A : Type) : Type :=
| Ok (a : A)
| Err (e : Exception).
Arguments Err {A}.

(** Service code: reads and writes of the store that may throw. *)
Definition M (A : Type) : Type := Store -> Result A * Store.

Definition ret {A} (a : A) : M A := fun st => (Ok a, st).

Definition throw {A} (e : Exception) : M A := fun st => (Err e, st).

Definition bind {A B} (c : M A) (k : A -> M B) : M B :=
  fun st =>
    match c st with
    | (Ok a, st') => k a st'
    | (Err e, st') => (Err e, st')
    end.

Notation "x <- c ;; k" := (bind c (fun x => k))
  (at level 61, c at next level, right associativity).

(** [try { ... } catch (err) { handler }] *)
Definition try_catch {A} (c : M A) (handler : Exception -> M A) : M A :=
  fun st =>
    match c st with
    | (Ok a, st') => (Ok a, st')
    | (Err e, st') => handler e st'
    end.

(** A read of the table. *)
Definition query {A} (f : list Row -> A) : M A := fun st => (Ok (f (rows st)), st).

(** [dataSource.transaction(body)]: the rows are those [body] leaves when it
    returns, and those of the start when it throws. *)
Definition transaction {A} (body : M A) : M A :=
  fun st =>
    match body st with
    | (Ok a, st') => (Ok a, st')
    | (Err e, st') => (Err e, mkStore (rows st) (seq st'))
    end.

(** ** The repository (TypeORM's [TreeRepository<Menu>]) *)

(** An entity read without [relations]. *)
Definition entity_of_row (r : Row) : Menu :=
  mkMenu (Some (row_id r)) (row_name r) (row_slug r) (row_order r)
         (row_isActive r) NotLoaded NotLoaded.

Definition idEq (a b : option Z) : bool :=
  match a, b with
  | Some x, Some y => Z.eqb x y
  | None, None => true
  | _, _ => false
  end.

(** [findOne({ where: { id } })] *)
Definition findOneById (i : Z) (t : list Row) : option Menu :=
  option_map entity_of_row (find (fun r => Z.eqb (row_id r) i) t).

(** [findOne({ where: { slug } })] *)
Definition findOneBySlug (s : jsstring) (t : list Row) : option Menu :=
  option_map entity_of_row (find (fun r => streq (row_slug r) s) t).

(** [exist({ where: { slug } })] *)
Definition existSlug (s : jsstring) (t : list Row) : bool :=
  existsb (fun r => streq (row_slug r) s) t.

(** SQL [MAX] (NULL over no rows) and [COALESCE]. *)
Definition sql_max (l : list Z) : option Z :=
  match l with
  | [] => None
  | x :: l' => Some (fold_left Z.max l' x)
  end.

Definition coalesce (o : option Z) (d : Z) : Z :=
  match o with Some v => v | None => d end.

(** The rows selected by [menu."parentId" = :pid], or
    [menu."parentId" IS NULL] for [pid = None]. *)
Definition whereParent (pid : option Z) (t : list Row) : list Row :=
  filter (fun r => idEq (row_parentId r) pid) t.

(** [select COALESCE(MAX(menu."order"), 0)] over that group. *)
Definition maxOrder (pid : option Z) (t : list Row) : Z :=
  coalesce (sql_max (map row_order (whereParent pid t))) 0.

(** The materialized path of the row with id [i]: the ids from its root down
    to itself.  The storage layer keeps it in column [mpath]; here it is read
    off the parent references, over at most as many steps as there are
    rows. *)
Fixpoint mpath (fuel : nat) (t : list Row) (i : Z) : list Z :=
  match fuel with
  | O => []
  | S fuel' =>
      match find (fun r => Z.eqb (row_id r) i) t with
      | None => []
      | Some r =>
          match row_parentId r with
          | None => [i]
          | Some p => mpath fuel' t p ++ [i]
          end
      end
  end.

(** [findDescendants(entity)]: the rows whose path runs through the entity,
    the entity's own row included. *)
Definition findDescendants (e : Menu) (t : list Row) : list Menu :=
  match id e with
  | None => []
  | Some i =>
      map entity_of_row
        (filter (fun r => existsb (Z.eqb i) (mpath (length t) t (row_id r))) t)
  end.

(** [findTrees({ relations: ['children'] })]: every root with its nested
    children. *)
Fixpoint subtree (fuel : nat) (t : list Row) (r : Row) : Menu :=
  mkMenu (Some (row_id r)) (row_name r) (row_slug r) (row_order r)
         (row_isActive r) NotLoaded
         (Loaded
            match fuel with
            | O => []
            | S fuel' =>
                map (subtree fuel' t) (whereParent (Some (row_id r)) t)
            end).

Definition findTrees (t : list Row) : list Menu :=
  map (subtree (length t) t) (whereParent None t).

(** ** Requests *)

(** [CreateMenuDto] (dto/create-menu.dto.ts).  [None] is an absent optional
    field. *)
Module CreateMenuDto.
Record t : Type := mk {
  name : jsstring;
  slug : option jsstring;
  order : option Z;
  isActive : option bool;
  parentId : option Z
}.
End CreateMenuDto.

(** Modelled from the spec: [UpdateMenuDto], whose declaration
    (dto/update-menu.dto.ts) is not among the sources: "any subset of the
    same fields (plus [parentId: null] to detach)".  [parentId = Some None]
    is [parentId: null]. *)
Module UpdateMenuDto.
Record t : Type := mk {
  name : option jsstring;
  slug : option jsstring;
  order : option Z;
  isActive : option bool;
  parentId : option (option Z)
}.
End UpdateMenuDto.

(** Assignments to the properties of an entity. *)
Definition set_id (m : Menu) (v : option Z) : Menu :=
  mkMenu v (name m) (slug m) (order m) (isActive m) (parent m) (children m).
Definition set_name (m : Menu) (v : jsstring) : Menu :=
  mkMenu (id m) v (slug m) (order m) (isActive m) (parent m) (children m).
Definition set_slug (m : Menu) (v : jsstring) : Menu :=
  mkMenu (id m) (name m) v (order m) (isActive m) (parent m) (children m).
Definition set_order (m : Menu) (v : Z) : Menu :=
  mkMenu (id m) (name m) (slug m) v (isActive m) (parent m) (children m).
Definition set_isActive (m : Menu) (v : bool) : Menu :=
  mkMenu (id m) (name m) (slug m) (order m) v (parent m) (children m).
Definition set_parent (m : Menu) (v : option Z) : Menu :=
  mkMenu (id m) (name m) (slug m) (order m) (isActive m) (Loaded v) (children m).

(** [${base}-${i}] *)
Definition candidate (base : jsstring) (i : N) : jsstring :=
  base ++ [hyphen] ++ numstr i.

(** The [while] loop of [ensureUniqueSlug], started at [i].  [fuel] bounds
    the number of probes; [ensureUniqueSlug] passes the number of rows, and
    [ensureUniqueSlug_loop_least] shows that this bound never ends the loop
    on a slug that is in use. *)
Fixpoint ensureUniqueSlug_loop (t : list Row) (base : jsstring)
                               (fuel : nat) (i : N) : jsstring :=
  match fuel with
  | O => candidate base i
  | S fuel' =>
      if existSlug (candidate base i) t
      then ensureUniqueSlug_loop t base fuel' (N.succ i)
      else candidate base i
  end.

(** [getPgErrorCode]: the driver's SQLSTATE of a [QueryFailedError]; the
    service's own exceptions carry no [code]. *)
Definition getPgErrorCode (err : Exception) : option string :=
  match err with
  | QueryFailedError code => Some code
  | _ => None
  end.

Definition isCode (c : option string) (code : string) : bool :=
  match c with
  | Some c' => String.eqb c' code
  | None => false
  end.

Section Service.

Variable normalizeNFKC : jsstring -> jsstring.
Variables isL isN : codepoint -> bool.
(** [String.prototype.toLowerCase] *)
Variable toLowerCase : jsstring -> jsstring.

(** The constraints the database enforces: the SQLSTATE, if any, with which
    it refuses to write row [r] into table [t], and to delete the row with
    id [i] from it. *)
Variable save_violation : list Row -> Row -> option string.
Variable remove_violation : list Row -> Z -> option string.

(** *** Writes *)

Definition parentColumn (e : Menu) (old : option Z) : option Z :=
  match parent e with
  | Loaded p => p
  | NotLoaded => old
  end.

Definition replaceRow (r : Row) (t : list Row) : list Row :=
  map (fun r' => if Z.eqb (row_id r') (row_id r) then r else r') t.

(** [repo.save(entity)]: an insert with the next id of the sequence for an
    entity without id, an update of its row otherwise; a relation that is
    not set on the entity leaves its column as it is.  The write is refused
    as a whole when it violates a constraint. *)
Definition save (e : Menu) : M Menu :=
  fun st =>
    match id e with
    | None =>
        let i := (seq st + 1)%Z in
        let r := mkRow i (name e) (slug e) (order e) (isActive e)
                       (parentColumn e None) in
        match save_violation (rows st) r with
        | Some code => (Err (QueryFailedError code), mkStore (rows st) i)
        | None => (Ok (set_id e (Some i)), mkStore (rows st ++ [r]) i)
        end
    | Some i =>
        let old := find (fun r => Z.eqb (row_id r) i) (rows st) in
        let r := mkRow i (name e) (slug e) (order e) (isActive e)
                       (parentColumn e
                          match old with
                          | Some o => row_parentId o
                          | None => None
                          end) in
        match save_violation (rows st) r with
        | Some code => (Err (QueryFailedError code), st)
        | None =>
            (Ok e,
             mkStore match old with
                     | Some _ => replaceRow r (rows st)
                     | None => rows st ++ [r]
                     end (seq st))
        end
    end.

(** [repo.remove(entity)] *)
Definition repo_remove (e : Menu) : M unit :=
  fun st =>
    match id e with
    | None => (Ok tt, st)
    | Some i =>
        match remove_violation (rows st) i with
        | Some code => (Err (QueryFailedError code), st)
        | None =>
            (Ok tt,
             mkStore (filter (fun r => negb (Z.eqb (row_id r) i)) (rows st))
                     (seq st))
        end
    end.

(** *** menus.service.ts *)

Definition ensureUniqueSlug (base : jsstring) : M jsstring :=
  taken <- query (existSlug base) ;;
  if negb taken then ret base
  else query (fun t => ensureUniqueSlug_loop t base (length t) 2).

(** [if (dto.parentId) { parent = findOne(...); if (!parent) throw ... }] *)
Definition lookupParent (parentId : option Z) : M (option Menu) :=
  match parentId with
  | None => ret None
  | Some p =>
      if Z.eqb p 0 then ret None
      else
        found <- query (findOneById p) ;;
        match found with
        | None => throw (NotFoundException "Parent not found")
        | Some m => ret (Some m)
        end
  end.

(** The sibling group the order query of [create] selects:
    [if (parent?.id) parentId = parent.id else parentId IS NULL]. *)
Definition groupOf (parent : option Menu) : option Z :=
  match parent with
  | Some p =>
      match id p with
      | Some i => if Z.eqb i 0 then None else Some i
      | None => None
      end
  | None => None
  end.

(** [order = dto.order; if (order == null) order = Number(max ?? 0) + 1] *)
Definition assignOrder (order : option Z) (parent : option Menu) : M Z :=
  match order with
  | Some o => ret o
  | None =>
      max <- query (maxOrder (groupOf parent)) ;;
      ret (max + 1)%Z
  end.

Definition newEntity (dto : CreateMenuDto.t) (slug : jsstring) (order : Z)
                     (parent : option Menu) : Menu :=
  mkMenu None (trim (CreateMenuDto.name dto)) slug order
         match CreateMenuDto.isActive dto with
         | Some b => b
         | None => true
         end
         (Loaded match parent with Some p => id p | None => None end)
         NotLoaded.

(** [try { return await save(e) } catch (err) { 23505 -> BadRequest }] *)
Definition saveOrConflict (e : Menu) : M Menu :=
  try_catch (save e)
    (fun err =>
       if isCode (getPgErrorCode err) "23505"
       then throw (BadRequestException "Duplicate slug or order for this parent")
       else throw err).

(** [create] of the first variant.  [uuid] is the value [randomUUID()]
    returns when it is called. *)
Definition create (dto : CreateMenuDto.t) (uuid : jsstring) : M Menu :=
  let raw := option_map trim (CreateMenuDto.slug dto) in
  let sourceForSlug :=
    if negb (isEmptyOrHyphens raw)
    then match raw with Some r => r | None => [] end
    else CreateMenuDto.name dto in
  let baseSlug := unicodeSlug normalizeNFKC isL isN sourceForSlug in
  let baseSlug :=
    if isEmpty baseSlug then str "menu-" ++ slice0 8 uuid else baseSlug in
  slug <- ensureUniqueSlug baseSlug ;;
  parent <- lookupParent (CreateMenuDto.parentId dto) ;;
  order <- assignOrder (CreateMenuDto.order dto) parent ;;
  saveOrConflict (newEntity dto slug order parent).

(** [findOne(id)] *)
Definition findOne (i : Z) : M Menu :=
  item <- query (findOneById i) ;;
  match item with
  | None => throw (NotFoundException "Menu not found")
  | Some m => ret m
  end.

(** [findTreeById(id)], the same text in both variants. *)
Definition findTreeById (i : Z) : M Menu :=
  trees <- query findTrees ;;
  match find (fun t => idEq (id t) (Some i)) trees with
  | None => throw (NotFoundException "Menu not found")
  | Some root => ret root
  end.

(** Step 3 of [update], the same text in both variants. *)
Definition updateParent (i : Z) (parentId : option (option Z))
                        (menu : Menu) : M Menu :=
  match parentId with
  | None => ret menu
  | Some None => ret (set_parent menu None)
  | Some (Some p) =>
      if Z.eqb p i
      then throw (BadRequestException "Cannot set parent to itself")
      else
        found <- query (findOneById p) ;;
        match found with
        | None => throw (NotFoundException "New parent not found")
        | Some newParent =>
            descendants <- query (findDescendants menu) ;;
            if existsb (fun d => idEq (id d) (id newParent)) descendants
            then throw (BadRequestException
                          "Cannot move a node into its descendant")
            else ret (set_parent menu (id newParent))
        end
  end.

(** [baseSlug = unicodeSlug(source) || `menu-${uuid8}`; if it differs from
    the current slug, make it unique and assign it]. *)
Definition reslug (source uuid : jsstring) (menu : Menu) : M Menu :=
  let baseSlug := unicodeSlug normalizeNFKC isL isN source in
  let baseSlug :=
    if isEmpty baseSlug then str "menu-" ++ slice0 8 uuid else baseSlug in
  if negb (streq baseSlug (slug menu))
  then s <- ensureUniqueSlug baseSlug ;; ret (set_slug menu s)
  else ret menu.

(** Step 1 of [update]: the entity and the flag [nameChanged]. *)
Definition updateName (dtoName : option jsstring) (menu : Menu)
  : Menu * bool :=
  match dtoName with
  | Some n =>
      let trimmed := trim n in
      (set_name menu trimmed,
       negb (isEmpty trimmed) && negb (streq trimmed (name menu)))
  | None => (menu, false)
  end.

Definition applyOpt {A} (o : option A) (f : Menu -> A -> Menu) (menu : Menu)
  : Menu :=
  match o with Some v => f menu v | None => menu end.

(** [update] of the first variant. *)
Definition update (i : Z) (dto : UpdateMenuDto.t) (uuid : jsstring)
  : M Menu :=
  menu <- findOne i ;;
  let '(menu, nameChanged) := updateName (UpdateMenuDto.name dto) menu in
  menu <- match UpdateMenuDto.slug dto with
          | Some s =>
              let raw := trim s in
              let source :=
                if negb (isEmptyOrHyphens (Some raw)) then raw
                else match UpdateMenuDto.name dto with
                     | Some n => trim n
                     | None => name menu
                     end in
              reslug source uuid menu
          | None =>
              if nameChanged then reslug (name menu) uuid menu
              else ret menu
          end ;;
  menu <- updateParent i (UpdateMenuDto.parentId dto) menu ;;
  let menu := applyOpt (UpdateMenuDto.order dto) set_order menu in
  let menu := applyOpt (UpdateMenuDto.isActive dto) set_isActive menu in
  saveOrConflict menu.

(** [remove(id)], the same text in both variants. *)
Definition remove (i : Z) : M unit :=
  menu <- findOne i ;;
  if match children menu with
     | Loaded l => negb (Nat.eqb (length l) 0)
     | NotLoaded => false
     end
  then throw (BadRequestException "Remove/move children first")
  else repo_remove menu.

(** *** The second variant of menus.service.ts *)

Definition toSlug (s : jsstring) : jsstring :=
  replace_g (re_plus isWhiteSpace) [hyphen] true
    (replace_g
       (re_one (fun c => negb (isWord c || isWhiteSpace c || isHyphen c)))
       [] true (trim (toLowerCase s))).

(** [a || b] on strings *)
Definition orElse (a : option jsstring) (b : jsstring) : jsstring :=
  match a with
  | Some s => if isEmpty s then b else s
  | None => b
  end.

Definition create2 (dto : CreateMenuDto.t) : M Menu :=
  let slug := orElse (option_map trim (CreateMenuDto.slug dto))
                     (toSlug (CreateMenuDto.name dto)) in
  exists_ <- query (findOneBySlug slug) ;;
  match exists_ with
  | Some _ => throw (BadRequestException "Slug already exists")
  | None =>
      parent <- lookupParent (CreateMenuDto.parentId dto) ;;
      transaction
        (nextOrder <- assignOrder (CreateMenuDto.order dto) parent ;;
         saveOrConflict (newEntity dto slug nextOrder parent))
  end.

Definition update2 (i : Z) (dto : UpdateMenuDto.t) : M Menu :=
  menu <- findOne i ;;
  let menu :=
    match UpdateMenuDto.name dto with
    | Some n =>
        if isEmpty n then menu
        else set_slug (set_name menu (trim n)) (toSlug n)
    | None => menu
    end in
  menu <- match UpdateMenuDto.slug dto with
          | Some s =>
              if isEmpty s then ret menu
              else
                let slug := trim s in
                dupe <- query (findOneBySlug slug) ;;
                match dupe with
                | Some d =>
                    if negb (idEq (id d) (Some i))
                    then throw (BadRequestException "Slug already exists")
                    else ret (set_slug menu slug)
                | None => ret (set_slug menu slug)
                end
          | None => ret menu
          end ;;
  let menu := applyOpt (UpdateMenuDto.order dto) set_order menu in
  let menu := applyOpt (UpdateMenuDto.isActive dto) set_isActive menu in
  menu <- updateParent i (UpdateMenuDto.parentId dto) menu ;;
  save menu.

End Service.

(** ** The slug normalizer as the specification words it

    "Unicode-normalize (compatibility composition) and trim; collapse any
    whitespace run to a single hyphen; strip every character that is not a
    Unicode letter, Unicode digit, hyphen, underscore, period, or tilde;
    collapse repeated hyphens to one; strip leading/trailing hyphens." *)

(** Every maximal run of code points satisfying [p] becomes the single code
    point [h]: a member of a run is dropped while the run goes on, and
    replaced by [h] where the run ends. *)
Definition startsWith (p : codepoint -> bool) (s : jsstring) : bool :=
  match s with
  | c :: _ => p c
  | [] => false
  end.

Fixpoint squeeze (p : codepoint -> bool) (h : codepoint) (s : jsstring)
  : jsstring :=
  match s with
  | [] => []
  | c :: s' =>
      if p c
      then if startsWith p s' then squeeze p h s' else h :: squeeze p h s'
      else c :: squeeze p h s'
  end.

(** No two neighbours both satisfy [p]. *)
Fixpoint noRun (p : codepoint -> bool) (s : jsstring) : bool :=
  match s with
  | [] => true
  | c :: s' => negb (p c && startsWith p s') && noRun p s'
  end.

Definition strip (p : codepoint -> bool) (s : jsstring) : jsstring :=
  dropWhileEnd p (dropWhile p s).

Definition normalize_spec (nfkc : jsstring -> jsstring)
                          (isL isN : codepoint -> bool) (text : jsstring)
  : jsstring :=
  let s := strip isWhiteSpace (nfkc text) in
  let s := squeeze isWhiteSpace hyphen s in
  let s := filter (isSlugChar isL isN) s in
  let s := squeeze isHyphen hyphen s in
  strip isHyphen s.

(** White space or hyphen: the code points [isEmptyOrHyphens] looks through. *)
Definition isBlank (c : codepoint) : bool := isWhiteSpace c || isHyphen c.

(** ** An excerpt of the Unicode data

    The general categories and the NFKC form restricted to Basic Latin and
    to the Hangul Jamo and Hangul Syllables blocks: on strings over these
    blocks NFKC only composes conjoining jamo (The Unicode Standard, 3.12:
    a leading consonant and a vowel into a syllable, such a syllable and a
    trailing consonant into a syllable). *)
Module UnicodeExcerpt.

Local Open Scope N_scope.

Definition within (lo hi c : codepoint) : bool := N.leb lo c && N.leb c hi.

Definition isL (c : codepoint) : bool :=
  within 0x41 0x5A c || within 0x61 0x7A c || within 0x1100 0x11FF c
  || within 0xAC00 0xD7A3 c.

Definition isN (c : codepoint) : bool := within 0x30 0x39 c.

Definition SBase : N := 0xAC00.
Definition LBase : N := 0x1100.
Definition VBase : N := 0x1161.
Definition TBase : N := 0x11A7.
Definition LCount : N := 19.
Definition VCount : N := 21.
Definition TCount : N := 28.

Definition composePair (a b : codepoint) : option codepoint :=
  if within LBase (LBase + LCount - 1) a && within VBase (VBase + VCount - 1) b
  then Some (SBase + ((a - LBase) * VCount + (b - VBase)) * TCount)%N
  else if within SBase 0xD7A3 a && N.eqb ((a - SBase) mod TCount) 0
          && within (TBase + 1) (TBase + TCount - 1) b
       then Some (a + (b - TBase))%N
       else None.

Fixpoint compose (last : codepoint) (s : jsstring) : jsstring :=
  match s with
  | [] => [last]
  | c :: s' =>
      match composePair last c with
      | Some x => compose x s'
      | None => last :: compose c s'
      end
  end.

Definition normalizeNFKC (s : jsstring) : jsstring :=
  match s with
  | [] => []
  | c :: s' => compose c s'
  end.

(** [toLowerCase] on Basic Latin. *)
Definition toLowerCase (s : jsstring) : jsstring :=
  map (fun c => if within 0x41 0x5A c then (c + 32)%N else c) s.

End UnicodeExcerpt.

(** ** The constraints of the schema

    entities/menu.entity.ts declares a unique index on [name] and one on
    [slug] (a violation is SQLSTATE 23505), and [@TreeParent()] makes
    [parentId] a foreign key to [menus] (deleting a referenced row is
    SQLSTATE 23503). *)
Module Schema.

Definition save_violation (t : list Row) (r : Row) : option string :=
  if existsb (fun r' => negb (Z.eqb (row_id r') (row_id r))
                        && (streq (row_name r') (row_name r)
                            || streq (row_slug r') (row_slug r))) t
  then Some "23505"%string
  else None.

Definition remove_violation (t : list Row) (i : Z) : option string :=
  if existsb (fun r' => idEq (row_parentId r') (Some i)) t
  then Some "23503"%string
  else None.

(** A database that enforces no constraint. *)
Definition no_violation {A} (t : list Row) (x : A) : option string := None.

End Schema.

(** ** The service on the excerpt and the schema *)
Module Pg.
Import UnicodeExcerpt Schema.

Definition unicodeSlug := unicodeSlug normalizeNFKC isL isN.
Definition create := create normalizeNFKC isL isN save_violation.
Definition create2 := create2 toLowerCase save_violation.
Definition update := update normalizeNFKC isL isN save_violation.
Definition update2 := update2 toLowerCase save_violation.
Definition remove := remove remove_violation.

(** The tree [A -> B -> C] and a second root [D]. *)
Definition A : Row := mkRow 1 (str "A") (str "a") 1 true None.
Definition B : Row := mkRow 2 (str "B") (str "a-2") 1 true (Some 1%Z).
Definition C : Row := mkRow 3 (str "C") (str "c") 1 true (Some 2%Z).
Definition D : Row := mkRow 4 (str "D") (str "d") 5 true None.

Definition abcd : Store := mkStore [A; B; C; D] 4.

End Pg.

(** ** The two variants side by side *)

Inductive ServiceVariant : Type := V1 | V2.

Section Variants.

Variable normalizeNFKC : jsstring -> jsstring.
Variables isL isN : codepoint -> bool.
Variable toLowerCase : jsstring -> jsstring.
Variable save_violation : list Row -> Row -> option string.

Definition createOf (v : ServiceVariant) (dto : CreateMenuDto.t)
                    (uuid : jsstring) : M Menu :=
  match v with
  | V1 => create normalizeNFKC isL isN save_violation dto uuid
  | V2 => create2 toLowerCase save_violation dto
  end.

Definition updateOf (v : ServiceVariant) (i : Z) (dto : UpdateMenuDto.t)
                    (uuid : jsstring) : M Menu :=
  match v with
  | V1 => update normalizeNFKC isL isN save_violation i dto uuid
  | V2 => update2 toLowerCase save_violation i dto
  end.

(** How [update] ends: the first variant translates a uniqueness
    violation, the second lets it through. *)
Definition persistOf (v : ServiceVariant) : Menu -> M Menu :=
  match v with
  | V1 => saveOrConflict save_violation
  | V2 => save save_violation
  end.

End Variants.

(** The duplicate check of the second variant's [update]: the request names
    a slug that another node uses. *)
Definition slugClash (i : Z) (dto : UpdateMenuDto.t) (t : list Row) : bool :=
  match UpdateMenuDto.slug dto with
  | Some s =>
      if isEmpty s then false
      else match findOneBySlug (trim s) t with
           | Some d => negb (idEq (id d) (Some i))
           | None => false
           end
  | None => false
  end.

(** ** The flat listing

    [findFlat] of menus.service.ts (the same text in both variants) over
    [QueryMenuDto] (dto/query-menu.dto.ts). *)

Module QueryMenuDto.
(** ['name' | 'order' | 'createdAt'] *)
Inductive SortBy : Type := by_name | by_order | by_createdAt.
(** ['asc' | 'desc'] *)
Inductive SortOrder : Type := asc | desc.
Record t : Type := mk {
  page : option Z;
  limit : option Z;
  search : option jsstring;
  sortBy : option SortBy;
  sortOrder : option SortOrder
}.
End QueryMenuDto.

(** ['ASC' | 'DESC'] *)
Inductive Direction : Type := ASC | DESC.

(** [sortOrder.toUpperCase()] *)
Definition upperCase (o : QueryMenuDto.SortOrder) : Direction :=
  match o with
  | QueryMenuDto.asc => ASC
  | QueryMenuDto.desc => DESC
  end.

(** [x ?? d] *)
Definition orDefault {A} (x : option A) (d : A) : A :=
  match x with Some v => v | None => d end.

(** [Math.ceil(total / limit)] on integers.  [None] is a quotient that is no
    integer: the division by zero gives [Infinity] or [NaN]. *)
Definition ceilDiv (total limit : Z) : option Z :=
  if Z.eqb limit 0 then None else Some (- ((- total) / limit))%Z.

Record Pagination : Type := mkPagination {
  pg_page : Z;
  pg_limit : Z;
  pg_total : Z;
  pg_totalPages : option Z
}.

Record FlatList : Type := mkFlatList {
  items : list Menu;
  pagination : Pagination
}.

(** An entity read with [relations: ['parent', 'children']]. *)
Definition entity_with_relations (t : list Row) (r : Row) : Menu :=
  mkMenu (Some (row_id r)) (row_name r) (row_slug r) (row_order r)
         (row_isActive r) (Loaded (row_parentId r))
         (Loaded (map entity_of_row (whereParent (Some (row_id r)) t))).

(** [`%${search}%`] *)
Definition percent (search : jsstring) : jsstring :=
  [0x25%N] ++ search ++ [0x25%N].

Section Flat.

(** [value ILIKE pattern] of the database. *)
Variable ilike : jsstring -> jsstring -> bool.

(** [repo.findAndCount({ where, order, skip, take, relations })]: the page
    of entities and the number of rows that match [where]. *)
Variable findAndCount :
  (Row -> bool) -> QueryMenuDto.SortBy -> Direction -> Z -> Z ->
  list Row -> list Menu * Z.

(** [q.search ? [{ name: ILike(p) }, { slug: ILike(p) }] : {}]: an array of
    conditions is their disjunction, the empty object no condition. *)
Definition searchWhere (search : option jsstring) : Row -> bool :=
  match search with
  | Some s =>
      if isEmpty s then fun _ => true
      else fun r => ilike (row_name r) (percent s)
                    || ilike (row_slug r) (percent s)
  | None => fun _ => true
  end.

Definition findFlat (q : QueryMenuDto.t) : M FlatList :=
  let page := orDefault (QueryMenuDto.page q) 1%Z in
  let limit := Z.min (orDefault (QueryMenuDto.limit q) 20%Z) 100 in
  let skip := ((page - 1) * limit)%Z in
  let where_ := searchWhere (QueryMenuDto.search q) in
  let sortBy := orDefault (QueryMenuDto.sortBy q) QueryMenuDto.by_createdAt in
  let sortOrder :=
    upperCase (orDefault (QueryMenuDto.sortOrder q) QueryMenuDto.asc) in
  found <- query (findAndCount where_ sortBy sortOrder skip limit) ;;
  ret (mkFlatList (fst found)
         (mkPagination page limit (snd found) (ceilDiv (snd found) limit))).

End Flat.

(** The page of a request, replaced. *)
Definition withPage (q : QueryMenuDto.t) (p : Z) : QueryMenuDto.t :=
  QueryMenuDto.mk (Some p) (QueryMenuDto.limit q) (QueryMenuDto.search q)
                  (QueryMenuDto.sortBy q) (QueryMenuDto.sortOrder q).

(** The items of an answer, none when it is an error. *)
Definition itemsOf (r : Result FlatList * Store) : list Menu :=
  match fst r with
  | Ok l => items l
  | Err _ => []
  end.

(** What [findAndCount] answers for a non-negative [skip] and a positive
    [take], given how the database orders the rows: the rows that match, in
    that order, from the [skip]-th on and at most [take] of them, each with
    its relations, and the number of rows that match. *)
Definition window (orderBy : QueryMenuDto.SortBy -> Direction ->
                             list Row -> list Row)
                  (where_ : Row -> bool) (k : QueryMenuDto.SortBy)
                  (d : Direction) (skip take : Z) (t : list Row)
  : list Menu * Z :=
  (map (entity_with_relations t)
       (firstn (Z.to_nat take)
               (skipn (Z.to_nat skip) (orderBy k d (filter where_ t)))),
   Z.of_nat (length (filter where_ t))).

(** ** A database for the flat listing

    [ILIKE] on Basic Latin ([%] any run, [_] any character, [\] escapes), and
    [ORDER BY] as a stable sort, the strings compared code point by code
    point; the rows are kept in the order of their creation. *)
Module Db.

Definition lowerChar (c : codepoint) : codepoint :=
  if UnicodeExcerpt.within 0x41%N 0x5A%N c then (c + 32)%N else c.

Definition sameChar (a b : codepoint) : bool :=
  N.eqb (lowerChar a) (lowerChar b).

Fixpoint likeFrom (p : jsstring) : jsstring -> bool :=
  match p with
  | [] => isEmpty
  | c :: p' =>
      if N.eqb c 0x25%N
      then fix star (s : jsstring) : bool :=
             likeFrom p' s
             || match s with
                | [] => false
                | _ :: s' => star s'
                end
      else if N.eqb c 0x5F%N
      then fun s => match s with
                    | _ :: s' => likeFrom p' s'
                    | [] => false
                    end
      else fun s => match s with
                    | x :: s' =>
                        if N.eqb c 0x5C%N
                        then match p' with
                             | e :: p'' => sameChar e x && likeFrom p'' s'
                             | [] => false
                             end
                        else sameChar c x && likeFrom p' s'
                    | [] => false
                    end
  end.

Definition ilike (value pattern : jsstring) : bool := likeFrom pattern value.

Fixpoint strLeb (a b : jsstring) : bool :=
  match a, b with
  | [], _ => true
  | _ :: _, [] => false
  | x :: a', y :: b' =>
      if N.eqb x y then strLeb a' b' else N.leb x y
  end.

Definition rowLeb (k : QueryMenuDto.SortBy) (a b : Row) : bool :=
  match k with
  | QueryMenuDto.by_name => strLeb (row_name a) (row_name b)
  | QueryMenuDto.by_order => Z.leb (row_order a) (row_order b)
  | QueryMenuDto.by_createdAt => true
  end.

Fixpoint insertRow (le : Row -> Row -> bool) (r : Row) (l : list Row)
  : list Row :=
  match l with
  | [] => [r]
  | x :: l' => if le r x then r :: l else x :: insertRow le r l'
  end.

Definition orderBy (k : QueryMenuDto.SortBy) (d : Direction) (t : list Row)
  : list Row :=
  let sorted := fold_right (insertRow (rowLeb k)) [] t in
  match d with
  | ASC => sorted
  | DESC => rev sorted
  end.

Definition findFlat := findFlat ilike (window orderBy).

(** Twenty-five roots, named and slugged by their number. *)
Definition twentyFive : Store :=
  mkStore
    (map (fun n => mkRow (Z.of_nat n) (numstr (N.of_nat n))
                         (numstr (N.of_nat n)) (Z.of_nat n) true None)
         (List.seq 1 25))
    25.

(** [{ page: 3, limit: 10 }] *)
Definition page3 : QueryMenuDto.t :=
  QueryMenuDto.mk (Some 3%Z) (Some 10%Z) None None None.

End Db.

(** ** Sample requests *)
Module Sample.

(** [{ name: "E" }] *)
Definition createE : CreateMenuDto.t :=
  CreateMenuDto.mk (str "E") None None None None.

(** [{ name: "E", isActive: false, parentId: 1 }] *)
Definition createUnderA : CreateMenuDto.t :=
  CreateMenuDto.mk (str "E") None None (Some false) (Some 1%Z).

(** [{ name: "E", parentId: 99 }] *)
Definition createUnder99 : CreateMenuDto.t :=
  CreateMenuDto.mk (str "E") None None None (Some 99%Z).

(** [{ name: "A" }], the name of node 1 *)
Definition createA : CreateMenuDto.t :=
  CreateMenuDto.mk (str "A") None None None None.

(** [{ name: "A", slug: "zz" }] *)
Definition createAzz : CreateMenuDto.t :=
  CreateMenuDto.mk (str "A") (Some (str "zz")) None None None.

(** [{ parentId: p }] *)
Definition moveTo (p : Z) : UpdateMenuDto.t :=
  UpdateMenuDto.mk None None None None (Some (Some p)).

(** [{ slug: "d", parentId: 99 }] *)
Definition slugAndMove : UpdateMenuDto.t :=
  UpdateMenuDto.mk None (Some (str "d")) None None (Some (Some 99%Z)).

(** [{ name: "   " }] *)
Definition blankName : UpdateMenuDto.t :=
  UpdateMenuDto.mk (Some (str "   ")) None None None None.

(** What [create] of the first variant returns for [createE] on [Pg.abcd],
    and the store it leaves. *)
Definition createdE : Menu :=
  mkMenu (Some 5%Z) (str "E") (str "E") 6 true (Loaded None) NotLoaded.

Definition afterE : Store :=
  mkStore (rows Pg.abcd ++ [mkRow 5 (str "E") (str "E") 6 true None]) 5.

(** The same for [createUnderA] and the second variant. *)
Definition createdUnderA : Menu :=
  mkMenu (Some 5%Z) (str "E") (str "e") 2 false (Loaded (Some 1%Z)) NotLoaded.

Definition afterUnderA : Store :=
  mkStore (rows Pg.abcd ++ [mkRow 5 (str "E") (str "e") 2 false (Some 1%Z)]) 5.

(** What [update(3, { parentId: 1 })] returns on [Pg.abcd], and the store it
    leaves. *)
Definition movedC : Menu :=
  mkMenu (Some 3%Z) (str "C") (str "c") 1 true (Loaded (Some 1%Z)) NotLoaded.

Definition afterMoveC : Store :=
  mkStore [Pg.A; Pg.B; mkRow 3 (str "C") (str "c") 1 true (Some 1%Z); Pg.D] 4.

(** [{ name: "a" }]: sent to node 4, the slug follows the name and is made
    unique. *)
Definition renameTo_a : UpdateMenuDto.t :=
  UpdateMenuDto.mk (Some (str "a")) None None None None.

Definition renamedD : Menu :=
  mkMenu (Some 4%Z) (str "a") (str "a-3") 5 true NotLoaded NotLoaded.

Definition afterRenameD : Store :=
  mkStore [Pg.A; Pg.B; Pg.C; mkRow 4 (str "a") (str "a-3") 5 true None] 4.

End Sample.

(** ** Properties of service code *)

(** [c] leaves the table as it found it, whatever it returns. *)
Definition readOnly {A} (c : M A) : Prop :=
  forall st, rows (snd (c st)) = rows st.

(** [c] leaves the table as it found it whenever it throws. *)
Definition atomic {A} (c : M A) : Prop :=
  forall st e st', c st = (Err e, st') -> rows st' = rows st.

(** [M] is the greatest of the orders in [l]. *)
Definition isMax (M : Z) (l : list Z) : Prop :=
  In M l /\ forall x, In x l -> (x <= M)%Z.

(** The row with primary key [i]. *)
Definition rowById (i : Z) (t : list Row) : option Row :=
  find (fun r => Z.eqb (row_id r) i) t.

(** The ids of the entities of a list. *)
Definition hasId (p : Z) (l : list Menu) : Prop :=
  exists d, In d l /\ id d = Some p.

(** * Proofs *)

(** ** Strings *)

Lemma streq_true a b : streq a b = true <-> a = b.
Proof. unfold streq. destruct (list_eq_dec N.eq_dec a b); split; congruence. Qed.

Lemma streq_false a b : streq a b = false <-> a <> b.
Proof. unfold streq. destruct (list_eq_dec N.eq_dec a b); split; congruence. Qed.

Lemma streq_refl a : streq a a = true.
Proof. apply streq_true. reflexivity. Qed.

Section Runs.

Variable p : codepoint -> bool.

Lemma dropWhile_span s : dropWhile p s = skipn (span p s) s.
Proof.
  induction s as [|c s IH]; simpl; [reflexivity|].
  destruct (p c); simpl; auto.
Qed.

Lemma span_all s : span p s = length s <-> forallb p s = true.
Proof.
  induction s as [|c s IH]; simpl; [tauto|].
  destruct (p c); simpl.
  - rewrite <- IH. split; congruence.
  - split; discriminate.
Qed.

Lemma dropWhile_all s : forallb p s = true -> dropWhile p s = [].
Proof.
  induction s as [|c s IH]; simpl; [reflexivity|].
  destruct (p c); simpl; [assumption | discriminate].
Qed.

Lemma dropWhile_nil_all s : dropWhile p s = [] -> forallb p s = true.
Proof.
  induction s as [|c s IH]; simpl; [reflexivity|].
  destruct (p c); simpl; [assumption | discriminate].
Qed.

Lemma dropWhile_app a b :
  dropWhile p (a ++ b) =
  if forallb p a then dropWhile p b else dropWhile p a ++ b.
Proof.
  induction a as [|c a IH]; simpl; [reflexivity|].
  destruct (p c); simpl; auto.
Qed.

Lemma forallb_rev (q : codepoint -> bool) s : forallb q (rev s) = forallb q s.
Proof.
  induction s as [|c s IH]; simpl; [reflexivity|].
  rewrite forallb_app, IH. simpl. rewrite andb_true_r. apply andb_comm.
Qed.

Lemma dropWhileEnd_cons c s :
  dropWhileEnd p (c :: s) =
  if forallb p (c :: s) then [] else c :: dropWhileEnd p s.
Proof.
  unfold dropWhileEnd. simpl rev. rewrite dropWhile_app, forallb_rev.
  simpl forallb. destruct (forallb p s) eqn:Hall.
  - rewrite andb_true_r. simpl. destruct (p c); simpl; [reflexivity|].
    rewrite dropWhile_all by (rewrite forallb_rev; assumption). reflexivity.
  - rewrite andb_false_r, rev_app_distr. reflexivity.
Qed.

Lemma dropWhileEnd_nil : dropWhileEnd p [] = [].
Proof. reflexivity. Qed.

Lemma startsWith_dropWhile s : startsWith p (dropWhile p s) = false.
Proof.
  induction s as [|c s IH]; simpl; [reflexivity|].
  destruct (p c) eqn:E; simpl; auto.
Qed.

Lemma dropWhile_id s : startsWith p s = false -> dropWhile p s = s.
Proof. destruct s as [|c s]; simpl; [reflexivity|]. intros ->. reflexivity. Qed.

Lemma startsWith_dropWhileEnd (q : codepoint -> bool) s :
  startsWith q (dropWhileEnd p s) = true -> startsWith q s = true.
Proof.
  destruct s as [|c s]; [discriminate|].
  rewrite dropWhileEnd_cons. destruct (forallb p (c :: s)); simpl; auto.
  discriminate.
Qed.

Lemma dropWhileEnd_idem s : dropWhileEnd p (dropWhileEnd p s) = dropWhileEnd p s.
Proof.
  unfold dropWhileEnd. rewrite rev_involutive.
  rewrite (dropWhile_id (dropWhile p (rev s))); [reflexivity|].
  apply startsWith_dropWhile.
Qed.

Lemma strip_idem s : strip p (strip p s) = strip p s.
Proof.
  unfold strip.
  rewrite (dropWhile_id (dropWhileEnd p (dropWhile p s))).
  - apply dropWhileEnd_idem.
  - destruct (startsWith p (dropWhileEnd p (dropWhile p s))) eqn:E; auto.
    apply startsWith_dropWhileEnd in E.
    rewrite startsWith_dropWhile in E. discriminate.
Qed.

Lemma strip_all s : forallb p s = true -> strip p s = [].
Proof. intros H. unfold strip. rewrite dropWhile_all; auto. Qed.

Lemma strip_nil_all s : strip p s = [] -> forallb p s = true.
Proof.
  unfold strip. intros H.
  destruct (dropWhile p s) as [|c s'] eqn:E.
  - apply dropWhile_nil_all. assumption.
  - rewrite dropWhileEnd_cons in H.
    assert (Hc : startsWith p (dropWhile p s) = false)
      by apply startsWith_dropWhile.
    rewrite E in Hc. simpl in Hc, H. rewrite Hc in H. discriminate.
Qed.

(** What holds of every code point holds of what is left of them. *)
Lemma forallb_dropWhile (q : codepoint -> bool) s :
  forallb q s = true -> forallb q (dropWhile p s) = true.
Proof.
  induction s as [|c s IH]; simpl; [reflexivity|].
  intros H. apply andb_true_iff in H as [Hc Hs].
  destruct (p c); simpl; auto. rewrite Hc, Hs. reflexivity.
Qed.

Lemma forallb_dropWhileEnd (q : codepoint -> bool) s :
  forallb q s = true -> forallb q (dropWhileEnd p s) = true.
Proof.
  intros H. unfold dropWhileEnd. rewrite forallb_rev.
  apply forallb_dropWhile. rewrite forallb_rev. assumption.
Qed.

Lemma forallb_strip (q : codepoint -> bool) s :
  forallb q s = true -> forallb q (strip p s) = true.
Proof.
  intros H. apply forallb_dropWhileEnd, forallb_dropWhile, H.
Qed.

Lemma forallb_squeeze (q : codepoint -> bool) h s :
  q h = true -> forallb q s = true -> forallb q (squeeze p h s) = true.
Proof.
  intros Hh. induction s as [|c s IH]; simpl; [reflexivity|].
  intros H. apply andb_true_iff in H as [Hc Hs].
  destruct (p c); [destruct (startsWith p s)|]; simpl;
    rewrite ?Hh, ?Hc; auto.
Qed.

Lemma forallb_filter (q k : codepoint -> bool) s :
  forallb q s = true -> forallb q (filter k s) = true.
Proof.
  induction s as [|c s IH]; simpl; [reflexivity|].
  intros H. apply andb_true_iff in H as [Hc Hs].
  destruct (k c); simpl; rewrite ?Hc; auto.
Qed.

Lemma forallb_filter_self s : forallb p (filter p s) = true.
Proof.
  induction s as [|c s IH]; simpl; [reflexivity|].
  destruct (p c) eqn:E; simpl; rewrite ?E; auto.
Qed.

Lemma filter_id s : forallb p s = true -> filter p s = s.
Proof.
  induction s as [|c s IH]; simpl; [reflexivity|].
  intros H. apply andb_true_iff in H as [Hc Hs].
  rewrite Hc, IH; auto.
Qed.

(** Strings without any [p]. *)
Lemma none_startsWith s :
  forallb (fun c => negb (p c)) s = true -> startsWith p s = false.
Proof.
  destruct s as [|c s]; simpl; [reflexivity|].
  intros H. apply andb_true_iff in H as [Hc _].
  apply negb_true_iff. assumption.
Qed.

Lemma none_dropWhileEnd s :
  forallb (fun c => negb (p c)) s = true -> dropWhileEnd p s = s.
Proof.
  induction s as [|c s IH]; [reflexivity|].
  intros H. rewrite dropWhileEnd_cons.
  simpl in H. apply andb_true_iff in H as [Hc Hs].
  simpl. apply negb_true_iff in Hc. rewrite Hc. simpl.
  rewrite IH; auto.
Qed.

Lemma none_strip s :
  forallb (fun c => negb (p c)) s = true -> strip p s = s.
Proof.
  intros H. unfold strip.
  rewrite dropWhile_id by (apply none_startsWith; assumption).
  apply none_dropWhileEnd. assumption.
Qed.

Lemma none_squeeze h s :
  forallb (fun c => negb (p c)) s = true -> squeeze p h s = s.
Proof.
  induction s as [|c s IH]; simpl; [reflexivity|].
  intros H. apply andb_true_iff in H as [Hc Hs].
  apply negb_true_iff in Hc. rewrite Hc, IH; auto.
Qed.

Lemma squeeze_none h s :
  p h = false -> forallb (fun c => negb (p c)) (squeeze p h s) = true.
Proof.
  intros Hh. induction s as [|c s IH]; simpl; [reflexivity|].
  destruct (p c) eqn:Hc; [destruct (startsWith p s)|]; simpl;
    rewrite ?Hh, ?Hc; auto.
Qed.

(** A run at the head of [s] becomes one [h]. *)
Lemma squeeze_run h s :
  startsWith p s = true ->
  squeeze p h s = h :: squeeze p h (skipn (span p s) s).
Proof.
  induction s as [|c s IH]; simpl; [discriminate|].
  intros Hc. rewrite Hc. simpl.
  destruct (startsWith p s) eqn:Hs.
  - apply IH. reflexivity.
  - destruct s as [|c' s]; [reflexivity|].
    simpl in Hs. simpl. rewrite Hs. simpl. rewrite Hs. reflexivity.
Qed.

Lemma startsWith_squeeze h s :
  startsWith p s = false -> startsWith p (squeeze p h s) = false.
Proof.
  destruct s as [|c s]; simpl; [reflexivity|].
  intros Hc. rewrite Hc. simpl. assumption.
Qed.

Lemma noRun_squeeze h s : p h = true -> noRun p (squeeze p h s) = true.
Proof.
  intros Hh. induction s as [|c s IH]; simpl; [reflexivity|].
  destruct (p c) eqn:Hc.
  - destruct (startsWith p s) eqn:Hs; [assumption|].
    simpl. rewrite IH, startsWith_squeeze by assumption.
    rewrite andb_false_r. reflexivity.
  - simpl. rewrite Hc, IH. reflexivity.
Qed.

Lemma noRun_dropWhile s : noRun p s = true -> noRun p (dropWhile p s) = true.
Proof.
  induction s as [|c s IH]; simpl; [reflexivity|].
  intros H. apply andb_true_iff in H as [Hc Hs].
  destruct (p c) eqn:E; auto. simpl. rewrite E, Hs. reflexivity.
Qed.

Lemma noRun_dropWhileEnd s :
  noRun p s = true -> noRun p (dropWhileEnd p s) = true.
Proof.
  induction s as [|c s IH]; [reflexivity|].
  intros H. rewrite dropWhileEnd_cons.
  destruct (forallb p (c :: s)); [reflexivity|].
  simpl in H. apply andb_true_iff in H as [Hc Hs].
  simpl. rewrite IH by assumption. rewrite andb_true_r.
  destruct (startsWith p (dropWhileEnd p s)) eqn:E.
  - apply startsWith_dropWhileEnd in E. rewrite E in Hc. assumption.
  - rewrite andb_false_r. reflexivity.
Qed.

Lemma noRun_squeeze_id h s :
  (forall c, p c = true -> c = h) -> noRun p s = true -> squeeze p h s = s.
Proof.
  intros Hp. induction s as [|c s IH]; simpl; [reflexivity|].
  intros H. apply andb_true_iff in H as [Hc Hs].
  rewrite IH by assumption.
  destruct (p c) eqn:E; [|reflexivity].
  simpl in Hc. apply negb_true_iff in Hc. rewrite Hc.
  rewrite (Hp c E). reflexivity.
Qed.

End Runs.

(** ** Global replacement against the list operations *)

Lemma replace_g_match re by_ at0 c s k :
  re at0 (c :: s) = Some k ->
  replace_g re by_ at0 (c :: s) = by_ ++ replace_g re by_ false (skipn k s).
Proof. intros H. simp replace_g. rewrite H. reflexivity. Qed.

Lemma replace_g_skip re by_ at0 c s :
  re at0 (c :: s) = None ->
  replace_g re by_ at0 (c :: s) = c :: replace_g re by_ false s.
Proof. intros H. simp replace_g. rewrite H. reflexivity. Qed.

(** [replace(/[p]/g, '')] deletes the code points that satisfy [p]. *)
Lemma replace_one_filter p at0 s :
  replace_g (re_one p) [] at0 s = filter (fun c => negb (p c)) s.
Proof.
  revert at0. induction s as [|c s IH]; intros at0; [reflexivity|].
  simpl. destruct (p c) eqn:Hc.
  - rewrite (@replace_g_match _ _ _ _ _ 0) by (simpl; rewrite Hc; reflexivity).
    simpl. apply IH.
  - rewrite replace_g_skip by (simpl; rewrite Hc; reflexivity).
    simpl. f_equal. apply IH.
Qed.

(** [replace(/[p]+/g, h)] squeezes every run into one [h]. *)
Lemma replace_plus_squeeze p h s :
  forall at0, replace_g (re_plus p) [h] at0 s = squeeze p h s.
Proof.
  remember (length s) as n eqn:Hn.
  revert s Hn. induction n as [n IH] using lt_wf_ind.
  intros [|c s] Hn at0; [reflexivity|].
  destruct (p c) eqn:Hc.
  - rewrite (@replace_g_match _ _ _ _ _ (span p s))
      by (unfold re_plus; simpl; rewrite Hc; reflexivity).
    rewrite (squeeze_run p h (c :: s)) by (simpl; assumption).
    simpl. rewrite Hc. simpl. f_equal.
    apply (IH (length (skipn (span p s) s))); [|reflexivity].
    subst n. rewrite length_skipn. simpl. lia.
  - rewrite replace_g_skip
      by (unfold re_plus; simpl; rewrite Hc; reflexivity).
    simpl. rewrite Hc. f_equal.
    apply (IH (length s)); [subst n; simpl; lia | reflexivity].
Qed.

(** Behind index 0, [replace(/^-+|-+$/g, '')] deletes the hyphens that end
    the subject. *)
Lemma replace_edge_tail s :
  replace_g re_edge_hyphens [] false s = dropWhileEnd isHyphen s.
Proof.
  induction s as [|c s IH]; [reflexivity|].
  rewrite dropWhileEnd_cons.
  destruct (forallb isHyphen (c :: s)) eqn:Hall.
  - assert (Hspan : span isHyphen (c :: s) = length (c :: s))
      by (apply span_all; assumption).
    rewrite (@replace_g_match _ _ _ _ _ (length s)).
    + rewrite skipn_all. reflexivity.
    + unfold re_edge_hyphens. rewrite Hspan. simpl.
      rewrite Nat.eqb_refl. reflexivity.
  - rewrite replace_g_skip; [rewrite IH; reflexivity|].
    unfold re_edge_hyphens.
    destruct (span isHyphen (c :: s)) as [|k] eqn:Hspan; [reflexivity|].
    destruct (Nat.eqb (S k) (length (c :: s))) eqn:E; [|reflexivity].
    apply Nat.eqb_eq in E. rewrite <- Hspan in E.
    apply span_all in E. congruence.
Qed.

(** [replace(/^-+|-+$/g, '')] strips the hyphens at both ends. *)
Lemma replace_edge_strip s :
  replace_g re_edge_hyphens [] true s = strip isHyphen s.
Proof.
  unfold strip. destruct s as [|c s]; [reflexivity|].
  destruct (isHyphen c) eqn:Hc.
  - rewrite (@replace_g_match _ _ _ _ _ (span isHyphen s))
      by (unfold re_edge_hyphens, re_plus; simpl; rewrite Hc; reflexivity).
    simpl. rewrite Hc, replace_edge_tail, dropWhile_span. reflexivity.
  - rewrite replace_g_skip
      by (unfold re_edge_hyphens, re_plus; simpl; rewrite Hc; reflexivity).
    simpl dropWhile. rewrite Hc, replace_edge_tail, dropWhileEnd_cons.
    simpl. rewrite Hc. reflexivity.
Qed.

(** ** The slug normalizer *)

Lemma isHyphen_eq c : isHyphen c = true -> c = hyphen.
Proof. apply N.eqb_eq. Qed.

Lemma isBlank_split c : isBlank c = true -> isWhiteSpace c = false -> c = hyphen.
Proof.
  unfold isBlank. intros H Hw. rewrite Hw in H. apply isHyphen_eq. assumption.
Qed.

(** White-space runs squeezed out of a string of white space and hyphens
    leave hyphens only. *)
Lemma squeeze_blank s :
  forallb isBlank s = true ->
  forallb isHyphen (squeeze isWhiteSpace hyphen s) = true.
Proof.
  induction s as [|c s IH]; simpl; [reflexivity|].
  intros H. apply andb_true_iff in H as [Hc Hs].
  destruct (isWhiteSpace c) eqn:Hw.
  - destruct (startsWith isWhiteSpace s); simpl; auto.
  - simpl. rewrite (isBlank_split c Hc Hw). simpl. auto.
Qed.

Lemma filter_hyphens_blank s :
  forallb isWhiteSpace (filter (fun c => negb (isHyphen c)) s) = true ->
  forallb isBlank s = true.
Proof.
  induction s as [|c s IH]; simpl; [reflexivity|].
  unfold isBlank at 1. destruct (isHyphen c) eqn:Hc; simpl.
  - rewrite orb_true_r. exact IH.
  - intros H. apply andb_true_iff in H as [Hw Hs].
    rewrite Hw. simpl. auto.
Qed.

Lemma isEmpty_true s : isEmpty s = true <-> s = [].
Proof. destruct s; simpl; split; congruence. Qed.

(** What [isEmptyOrHyphens] accepts: the strings of white space and hyphens. *)
Lemma isEmptyOrHyphens_blank s :
  isEmptyOrHyphens (Some s) = true <-> forallb isBlank s = true.
Proof.
  unfold isEmptyOrHyphens. destruct s as [|c s]; [simpl; tauto|].
  cbv [isEmpty]. fold (isEmpty (trim (replace_g (re_one isHyphen) [] true (c :: s)))).
  rewrite replace_one_filter, isEmpty_true. split.
  - intros H. apply filter_hyphens_blank. apply (strip_nil_all _ _ H).
  - intros H. apply strip_all.
    clear - H. induction (c :: s) as [|d l IH]; simpl; [reflexivity|].
    simpl in H. apply andb_true_iff in H as [Hd Hl].
    destruct (isHyphen d) eqn:E; simpl; auto.
    unfold isBlank in Hd. rewrite E, orb_false_r in Hd. rewrite Hd. auto.
Qed.

Section SlugFacts.

Variable normalizeNFKC : jsstring -> jsstring.
Variables isL isN : codepoint -> bool.

Local Abbreviation unicodeSlug' := (unicodeSlug normalizeNFKC isL isN).
Local Abbreviation normalize_spec' := (normalize_spec normalizeNFKC isL isN).
Local Abbreviation isSlugChar' := (isSlugChar isL isN).

(** The body of [unicodeSlug] behind its guard computes the five steps. *)
Lemma unicodeSlug_steps input :
  unicodeSlug' input = if isEmpty input then [] else normalize_spec' input.
Proof.
  unfold unicodeSlug, normalize_spec',
    normalize_spec.
  destruct (isEmpty input); [reflexivity|].
  rewrite replace_edge_strip, !replace_plus_squeeze, replace_one_filter.
  unfold trim. fold (strip isWhiteSpace (normalizeNFKC input)).
  do 2 f_equal. apply filter_ext. intros c. apply negb_involutive.
Qed.

Lemma isSlugChar_hyphen : isSlugChar' hyphen = true.
Proof.
  unfold isSlugChar, hyphen. simpl.
  rewrite !orb_true_r. reflexivity.
Qed.

(** The five steps turn white space and hyphens into nothing. *)
Lemma steps_blank (nfkc : jsstring -> jsstring) text :
  forallb isBlank (nfkc text) = true ->
  normalize_spec nfkc isL isN text = [].
Proof.
  intros H. unfold normalize_spec.
  apply strip_all, forallb_squeeze; [reflexivity|].
  apply forallb_filter, squeeze_blank, forallb_strip, H.
Qed.

(** A slug holds no white space, only slug characters, no two hyphens in a
    row, and no hyphen at either end. *)
Lemma steps_shape text :
  let y := normalize_spec' text in
  forallb (fun c => negb (isWhiteSpace c)) y = true
  /\ forallb isSlugChar' y = true
  /\ noRun isHyphen y = true
  /\ strip isHyphen y = y.
Proof.
  unfold normalize_spec. cbv zeta.
  repeat split.
  - apply forallb_strip, forallb_squeeze; [reflexivity|].
    apply forallb_filter, squeeze_none. reflexivity.
  - apply forallb_strip, forallb_squeeze; [apply isSlugChar_hyphen|].
    apply forallb_filter_self.
  - apply noRun_dropWhileEnd, noRun_dropWhile, noRun_squeeze. reflexivity.
  - apply strip_idem.
Qed.

(** The five steps leave a slug as it is, up to the normalization form. *)
Lemma steps_fixed (nfkc : jsstring -> jsstring) text :
  let y := normalize_spec' text in
  nfkc y = y -> normalize_spec nfkc isL isN y = y.
Proof.
  intros y Hn. destruct (steps_shape text) as (Hw & Hk & Hr & Hs).
  fold y in Hw, Hk, Hr, Hs.
  unfold normalize_spec. rewrite Hn.
  rewrite (none_strip isWhiteSpace y Hw).
  rewrite (none_squeeze isWhiteSpace hyphen y Hw).
  rewrite (filter_id _ y Hk).
  rewrite (@noRun_squeeze_id isHyphen hyphen y isHyphen_eq Hr).
  assumption.
Qed.

End SlugFacts.

(** ** Candidates of the uniqueness resolver *)

Lemma str_inj a b : str a = str b -> a = b.
Proof.
  unfold str. intros H.
  rewrite <- (string_of_list_ascii_of_string a),
          <- (string_of_list_ascii_of_string b).
  f_equal. revert H.
  generalize (list_ascii_of_string a) (list_ascii_of_string b).
  induction l as [|x l IH]; intros [|y l'] H; simpl in H;
    try discriminate; [reflexivity|].
  injection H as Hxy Hl. f_equal; [|apply IH; assumption].
  rewrite <- (ascii_N_embedding x), <- (ascii_N_embedding y), Hxy.
  reflexivity.
Qed.

Lemma numstr_inj i j : numstr i = numstr j -> i = j.
Proof.
  unfold numstr. intros H. apply str_inj in H.
  apply DecimalN.Unsigned.to_uint_inj.
  pose proof (NilEmpty.usu (N.to_uint i)) as Hi.
  pose proof (NilEmpty.usu (N.to_uint j)) as Hj.
  rewrite H in Hi. congruence.
Qed.

Lemma candidate_inj base i j : candidate base i = candidate base j -> i = j.
Proof.
  unfold candidate. intros H. apply app_inv_head in H.
  injection H as H. apply numstr_inj. assumption.
Qed.

Lemma candidate_not_base base i : candidate base i <> base.
Proof.
  unfold candidate. intros H.
  apply (f_equal (@length codepoint)) in H.
  rewrite length_app in H. simpl in H. lia.
Qed.

Lemma existSlug_In s t : existSlug s t = true <-> In s (map row_slug t).
Proof.
  unfold existSlug. rewrite existsb_exists, in_map_iff. split.
  - intros (r & Hr & E). apply streq_true in E. exists r. auto.
  - intros (r & E & Hr). exists r. split; [assumption|].
    apply streq_true. assumption.
Qed.

(** The loop stops at the first candidate from [i] on that is free, or at the
    bound, and has found every earlier candidate in use. *)
Lemma ensureUniqueSlug_loop_stops t base fuel :
  forall i, exists k,
    k <= fuel
    /\ ensureUniqueSlug_loop t base fuel i = candidate base (i + N.of_nat k)
    /\ (forall j, j < k ->
          existSlug (candidate base (i + N.of_nat j)) t = true)
    /\ (k < fuel -> existSlug (candidate base (i + N.of_nat k)) t = false).
Proof.
  induction fuel as [|fuel IH]; intros i.
  - exists 0. simpl. rewrite N.add_0_r. repeat split; auto; lia.
  - simpl. destruct (existSlug (candidate base i) t) eqn:E.
    + destruct (IH (N.succ i)) as (k & Hk & Hr & Hused & Hfree).
      exists (S k).
      replace (i + N.of_nat (S k))%N with (N.succ i + N.of_nat k)%N by lia.
      split; [lia|]. split; [assumption|]. split.
      * intros [|j] Hj.
        -- simpl. rewrite N.add_0_r. assumption.
        -- replace (i + N.of_nat (S j))%N
             with (N.succ i + N.of_nat j)%N by lia.
           apply Hused. lia.
      * intros Hlt. apply Hfree. lia.
    + exists 0. simpl. rewrite N.add_0_r. repeat split; auto; lia.
Qed.

Lemma NoDup_map_injective {A B} (f : A -> B) (l : list A) :
  (forall x y, f x = f y -> x = y) -> NoDup l -> NoDup (map f l).
Proof.
  intros Hf. induction 1 as [|x l Hx Hl IH]; simpl; constructor; auto.
  rewrite in_map_iff. intros (y & E & Hy). apply Hf in E. subst y. auto.
Qed.

(** As many candidates as there are rows cannot all be in use besides
    [base] itself. *)
Lemma candidates_not_all_used t base i :
  existSlug base t = true ->
  (forall j, j < length t ->
     existSlug (candidate base (i + N.of_nat j)) t = true) ->
  False.
Proof.
  intros Hbase Hused.
  set (l := base :: map (fun j => candidate base (i + N.of_nat j))
                        (List.seq 0 (length t))).
  assert (Hnodup : NoDup l).
  { constructor.
    - rewrite in_map_iff. intros (j & E & _).
      revert E. apply candidate_not_base.
    - apply NoDup_map_injective; [|apply seq_NoDup].
      intros x y E. apply candidate_inj in E. lia. }
  assert (Hincl : incl l (map row_slug t)).
  { intros s [<-|Hs].
    - apply existSlug_In. assumption.
    - apply in_map_iff in Hs as (j & <- & Hj). apply in_seq in Hj.
      apply existSlug_In, Hused. lia. }
  pose proof (NoDup_incl_length Hnodup Hincl) as Hlen.
  subst l. simpl in Hlen. rewrite !length_map, length_seq in Hlen. lia.
Qed.

(** Started at 2 with the number of rows as bound, the loop returns the
    first free candidate. *)
Lemma ensureUniqueSlug_loop_least t base :
  existSlug base t = true ->
  exists i, (2 <= i)%N
    /\ ensureUniqueSlug_loop t base (length t) 2 = candidate base i
    /\ existSlug (candidate base i) t = false
    /\ (forall j, (2 <= j < i)%N -> existSlug (candidate base j) t = true).
Proof.
  intros Hbase.
  destruct (ensureUniqueSlug_loop_stops t base (length t) 2)
    as (k & Hk & Hr & Hused & Hfree).
  exists (2 + N.of_nat k)%N. repeat split; try assumption; try lia.
  - apply Hfree. destruct (Nat.eq_dec k (length t)) as [->|]; [|lia].
    exfalso. exact (candidates_not_all_used t base 2 Hbase Hused).
  - intros j Hj.
    replace j with (2 + N.of_nat (N.to_nat (j - 2)))%N by lia.
    apply Hused. lia.
Qed.

(** ** Reads and writes *)

Create HintDb svc.

Lemma readOnly_atomic {A} (c : M A) : readOnly c -> atomic c.
Proof. intros H st e st' E. specialize (H st). rewrite E in H. exact H. Qed.

Lemma readOnly_ret {A} (a : A) : readOnly (ret a).
Proof. intros st. reflexivity. Qed.

Lemma readOnly_throw {A} e : readOnly (@throw A e).
Proof. intros st. reflexivity. Qed.

Lemma readOnly_query {A} (f : list Row -> A) : readOnly (query f).
Proof. intros st. reflexivity. Qed.

Lemma readOnly_bind {A B} (c : M A) (k : A -> M B) :
  readOnly c -> (forall a, readOnly (k a)) -> readOnly (bind c k).
Proof.
  intros Hc Hk st. unfold bind. specialize (Hc st).
  destruct (c st) as [[a|e] st1]; simpl in *; [|assumption].
  rewrite Hk. assumption.
Qed.

Lemma atomic_bind {A B} (c : M A) (k : A -> M B) :
  readOnly c -> (forall a, atomic (k a)) -> atomic (bind c k).
Proof.
  intros Hc Hk st e st' E. unfold bind in E. specialize (Hc st).
  destruct (c st) as [[a|e1] st1]; simpl in *.
  - rewrite (Hk a st1 e st' E). assumption.
  - injection E as _ <-. assumption.
Qed.

Lemma atomic_try_catch {A} (c : M A) handler :
  atomic c -> (forall e, readOnly (handler e)) -> atomic (try_catch c handler).
Proof.
  intros Hc Hh st e st' E. unfold try_catch in E.
  destruct (c st) as [[a|e1] st1] eqn:Ec; [discriminate|].
  specialize (Hh e1 st1). rewrite E in Hh. simpl in Hh.
  rewrite Hh. exact (Hc st e1 st1 Ec).
Qed.

(** A transaction is atomic whatever its body does. *)
Lemma atomic_transaction {A} (body : M A) : atomic (transaction body).
Proof.
  intros st e st' E. unfold transaction in E.
  destruct (body st) as [[a|e1] st1]; [discriminate|].
  injection E as _ <-. reflexivity.
Qed.

#[local] Hint Resolve readOnly_ret readOnly_throw readOnly_query
  atomic_transaction : svc.

Ltac svc_step :=
  match goal with
  | |- readOnly (bind _ _) => apply readOnly_bind; [|intros ?]
  | |- atomic (bind _ _) => apply atomic_bind; [|intros ?]
  | |- atomic (try_catch _ _) => apply atomic_try_catch; [|intros ?]
  | |- readOnly (match ?x with _ => _ end) => destruct x
  | |- atomic (match ?x with _ => _ end) => destruct x
  | |- readOnly (let '(_, _) := ?x in _) => destruct x
  | |- atomic (let '(_, _) := ?x in _) => destruct x
  | |- atomic _ => solve [apply readOnly_atomic; auto with svc]
  | |- _ => solve [auto with svc]
  end.

Ltac svc := repeat svc_step.

Lemma findOneById_inv i t m :
  findOneById i t = Some m ->
  exists r, rowById i t = Some r /\ In r t /\ row_id r = i
            /\ m = entity_of_row r.
Proof.
  unfold findOneById, rowById.
  destruct (find _ t) as [r|] eqn:E; [|discriminate].
  intros [= <-]. apply find_some in E as [Hin Hid].
  apply Z.eqb_eq in Hid. exists r. auto.
Qed.

Lemma findOneById_id i t m : findOneById i t = Some m -> id m = Some i.
Proof.
  intros H. apply findOneById_inv in H as (r & _ & _ & <- & ->). reflexivity.
Qed.

Lemma findOneById_found i t r :
  In r t -> row_id r = i -> exists m, findOneById i t = Some m.
Proof.
  intros Hin Hid. unfold findOneById.
  destruct (find (fun r0 => Z.eqb (row_id r0) i) t) as [r'|] eqn:E.
  - eexists. reflexivity.
  - exfalso. apply (find_none _ _ E) in Hin.
    apply Z.eqb_neq in Hin. contradiction.
Qed.

(** A descendant is a stored row. *)
Lemma findDescendants_stored e t p :
  hasId p (findDescendants e t) -> exists m, findOneById p t = Some m.
Proof.
  intros (d & Hd & Hid). unfold findDescendants in Hd.
  destruct (id e); [|contradiction].
  apply in_map_iff in Hd as (r & <- & Hr).
  apply filter_In in Hr as [Hr _]. simpl in Hid. injection Hid as Hid.
  eapply findOneById_found; eassumption.
Qed.

Lemma existsb_hasId p l :
  existsb (fun d => idEq (id d) (Some p)) l = true <-> hasId p l.
Proof.
  rewrite existsb_exists. unfold hasId. split; intros (d & Hd & H); exists d;
    (split; [assumption|]).
  - destruct (id d) as [x|]; simpl in H; [|discriminate].
    apply Z.eqb_eq in H. subst. reflexivity.
  - rewrite H. simpl. apply Z.eqb_refl.
Qed.

Section ServiceFacts.

Variable normalizeNFKC : jsstring -> jsstring.
Variables isL isN : codepoint -> bool.
Variable toLowerCase : jsstring -> jsstring.
Variable save_violation : list Row -> Row -> option string.
Variable remove_violation : list Row -> Z -> option string.

Local Abbreviation save' := (save save_violation).
Local Abbreviation saveOrConflict' := (saveOrConflict save_violation).
Local Abbreviation create' := (create normalizeNFKC isL isN save_violation).
Local Abbreviation create2' := (create2 toLowerCase save_violation).
Local Abbreviation update' := (update normalizeNFKC isL isN save_violation).
Local Abbreviation update2' := (update2 toLowerCase save_violation).
Local Abbreviation remove' := (remove remove_violation).
Local Abbreviation reslug' := (reslug normalizeNFKC isL isN).

Lemma atomic_save e : atomic (save' e).
Proof.
  intros st err st' E. unfold save in E.
  destruct (id e).
  - destruct (save_violation _ _); [|discriminate].
    injection E as _ <-. reflexivity.
  - destruct (save_violation _ _); [|discriminate].
    injection E as _ <-. reflexivity.
Qed.

Lemma atomic_repo_remove e : atomic (repo_remove remove_violation e).
Proof.
  intros st err st' E. unfold repo_remove in E.
  destruct (id e); [|discriminate].
  destruct (remove_violation _ _); [|discriminate].
  injection E as _ <-. reflexivity.
Qed.

Lemma atomic_saveOrConflict e : atomic (saveOrConflict' e).
Proof.
  unfold saveOrConflict', saveOrConflict.
  apply atomic_try_catch; [apply atomic_save|].
  intros err. destruct (isCode _ _); auto with svc.
Qed.

Lemma readOnly_ensureUniqueSlug base : readOnly (ensureUniqueSlug base).
Proof. unfold ensureUniqueSlug. svc. Qed.

Lemma readOnly_lookupParent pid : readOnly (lookupParent pid).
Proof. unfold lookupParent. svc. Qed.

Lemma readOnly_assignOrder o parent : readOnly (assignOrder o parent).
Proof. unfold assignOrder. svc. Qed.

Lemma readOnly_findOne i : readOnly (findOne i).
Proof. unfold findOne. svc. Qed.

Lemma readOnly_findTreeById i : readOnly (findTreeById i).
Proof. unfold findTreeById. svc. Qed.

Lemma readOnly_updateParent i pid menu : readOnly (updateParent i pid menu).
Proof. unfold updateParent. svc. Qed.

Lemma readOnly_reslug source uuid menu : readOnly (reslug' source uuid menu).
Proof.
  unfold reslug. cbv zeta.
  pose proof readOnly_ensureUniqueSlug. svc.
Qed.

Hint Resolve atomic_saveOrConflict atomic_save atomic_repo_remove
  readOnly_ensureUniqueSlug readOnly_lookupParent readOnly_assignOrder
  readOnly_findOne readOnly_updateParent readOnly_reslug : svc.

Lemma atomic_create dto uuid : atomic (create' dto uuid).
Proof. unfold create. cbv zeta. svc. Qed.

Lemma atomic_create2 dto : atomic (create2' dto).
Proof. unfold create2', create2. cbv zeta. svc. Qed.

Lemma atomic_update i dto uuid : atomic (update' i dto uuid).
Proof. unfold update. svc. Qed.

Lemma atomic_update2 i dto : atomic (update2' i dto).
Proof. unfold update2', update2. cbv zeta. svc. Qed.

Lemma atomic_remove i : atomic (remove' i).
Proof. unfold remove. svc. Qed.

End ServiceFacts.

(** ** What the steps of [create] compute *)

Lemma fold_max_bounds l : forall x,
  let M := fold_left Z.max l x in
  (M = x \/ In M l) /\ (x <= M)%Z /\ forall y, In y l -> (y <= M)%Z.
Proof.
  induction l as [|a l IH]; intros x; simpl.
  - repeat split; auto; try lia; contradiction.
  - destruct (IH (Z.max x a)) as (Hin & Hx & Hall).
    repeat split.
    + destruct Hin as [E|Hin]; [|auto].
      destruct (Z.max_spec x a) as [[_ Hm]|[_ Hm]]; rewrite Hm in E;
        intuition congruence.
    + lia.
    + intros y [<-|Hy]; [lia | auto].
Qed.

Lemma sql_max_isMax l M : sql_max l = Some M -> isMax M l.
Proof.
  destruct l as [|x l]; simpl; [discriminate|]. intros [= <-].
  destruct (fold_max_bounds l x) as (Hin & Hx & Hall). split.
  - destruct Hin as [->|Hin]; simpl; auto.
  - intros y [<-|Hy]; auto.
Qed.

Lemma isMax_unique M M' l : isMax M l -> isMax M' l -> M = M'.
Proof.
  intros [Hin Hall] [Hin' Hall'].
  specialize (Hall _ Hin'). specialize (Hall' _ Hin). lia.
Qed.

(** The order query: the base line 0 for an empty group, the greatest order
    of the group otherwise. *)
Lemma maxOrder_spec pid t :
  let group := map row_order (whereParent pid t) in
  (group = [] /\ maxOrder pid t = 0%Z)
  \/ (exists M, isMax M group /\ maxOrder pid t = M).
Proof.
  unfold maxOrder. cbv zeta.
  destruct (sql_max (map row_order (whereParent pid t))) as [M|] eqn:E.
  - right. exists M. split; [apply sql_max_isMax; assumption | reflexivity].
  - left. destruct (map row_order (whereParent pid t)); [auto | discriminate].
Qed.

Lemma ensureUniqueSlug_run base st :
  ensureUniqueSlug base st =
  (Ok (if existSlug base (rows st)
       then ensureUniqueSlug_loop (rows st) base (length (rows st)) 2
       else base), st).
Proof.
  unfold ensureUniqueSlug, bind, query, ret.
  destruct (existSlug base (rows st)); reflexivity.
Qed.

Lemma assignOrder_run o parent st :
  assignOrder o parent st =
  (Ok match o with
      | Some v => v
      | None => (maxOrder (groupOf parent) (rows st) + 1)%Z
      end, st).
Proof. destruct o; reflexivity. Qed.

(** The parent [create] resolves, and the sibling group its order query
    then selects, which is the group the new row joins. *)
Lemma lookupParent_ok pid st parent st' :
  lookupParent pid st = (Ok parent, st') ->
  st' = st
  /\ groupOf parent = match parent with Some p => id p | None => None end.
Proof.
  unfold lookupParent. destruct pid as [p|]; [|intros [= <- <-]; auto].
  destruct (Z.eqb p 0) eqn:Hp; [intros [= <- <-]; auto|].
  unfold bind, query.
  destruct (findOneById p (rows st)) as [m|] eqn:E; [|discriminate].
  intros [= <- <-]. split; [reflexivity|].
  simpl. rewrite (findOneById_id _ _ E), Hp. reflexivity.
Qed.

Section CreateFacts.

Variable normalizeNFKC : jsstring -> jsstring.
Variables isL isN : codepoint -> bool.
Variable toLowerCase : jsstring -> jsstring.
Variable save_violation : list Row -> Row -> option string.

Local Abbreviation save' := (save save_violation).
Local Abbreviation saveOrConflict' := (saveOrConflict save_violation).
Local Abbreviation create' := (create normalizeNFKC isL isN save_violation).
Local Abbreviation create2' := (create2 toLowerCase save_violation).

Lemma save_insert e st m st' :
  id e = None ->
  save' e st = (Ok m, st') ->
  m = set_id e (Some (seq st + 1)%Z)
  /\ rows st' =
     rows st ++ [mkRow (seq st + 1) (name e) (slug e) (order e) (isActive e)
                       (parentColumn e None)].
Proof.
  intros Hid. unfold save. rewrite Hid.
  destruct (save_violation _ _); [discriminate|].
  intros [= <- <-]. auto.
Qed.

Lemma saveOrConflict_ok e st m st' :
  saveOrConflict' e st = (Ok m, st') -> save' e st = (Ok m, st').
Proof.
  unfold saveOrConflict', saveOrConflict, try_catch. fold save'.
  destruct (save' e st) as [[a|err] st1]; [auto|].
  destruct (isCode _ _); discriminate.
Qed.

(** A successful [create], of either variant, has inserted one row: that
    of the entity it returns, built from the request, the resolved parent
    and the assigned order. *)
Lemma create_inv dto uuid st m st' :
  create' dto uuid st = (Ok m, st') \/ create2' dto st = (Ok m, st') ->
  exists slug parent,
    let pid := match parent with Some p => id p | None => None end in
    let o := match CreateMenuDto.order dto with
             | Some v => v
             | None => (maxOrder pid (rows st) + 1)%Z
             end in
    m = set_id (newEntity dto slug o parent) (Some (seq st + 1)%Z)
    /\ rows st' =
       rows st ++ [mkRow (seq st + 1) (trim (CreateMenuDto.name dto)) slug o
                         (isActive m) pid].
Proof.
  intros [H|H].
  - unfold create in H. cbv zeta in H.
    unfold bind at 1 in H. rewrite ensureUniqueSlug_run in H.
    unfold bind at 1 in H.
    destruct (lookupParent _ st) as [[parent|err] st1] eqn:Hp;
      [|discriminate].
    apply lookupParent_ok in Hp as [-> Hg].
    unfold bind in H. rewrite assignOrder_run in H.
    apply saveOrConflict_ok, save_insert in H as [-> ->]; [|reflexivity].
    eexists _, parent. cbv zeta. rewrite Hg.
    split; reflexivity.
  - unfold create2', create2 in H. cbv zeta in H.
    unfold bind at 1, query at 1 in H.
    destruct (findOneBySlug _ _); [discriminate|].
    unfold bind at 1 in H.
    destruct (lookupParent _ st) as [[parent|err] st1] eqn:Hp;
      [|discriminate].
    apply lookupParent_ok in Hp as [-> Hg].
    unfold transaction, bind in H. rewrite assignOrder_run in H.
    match type of H with
    | match ?c with _ => _ end = _ => destruct c as [[a|err] st2] eqn:Hs
    end; [|discriminate].
    injection H as <- <-.
    apply saveOrConflict_ok, save_insert in Hs as [-> ->]; [|reflexivity].
    eexists _, parent. cbv zeta. rewrite Hg.
    split; reflexivity.
Qed.

End CreateFacts.

(** ** What the steps of [update] compute *)

Lemma findDescendants_ext e e' t :
  id e = id e' -> findDescendants e t = findDescendants e' t.
Proof. unfold findDescendants. intros ->. reflexivity. Qed.

Lemma updateParent_self i menu st :
  updateParent i (Some (Some i)) menu st =
  (Err (BadRequestException "Cannot set parent to itself"), st).
Proof. unfold updateParent. rewrite Z.eqb_refl. reflexivity. Qed.

Lemma updateParent_missing i p menu st :
  p <> i -> findOneById p (rows st) = None ->
  updateParent i (Some (Some p)) menu st =
  (Err (NotFoundException "New parent not found"), st).
Proof.
  intros Hp Hnone. unfold updateParent.
  apply Z.eqb_neq in Hp. rewrite Hp.
  unfold bind, query. rewrite Hnone. reflexivity.
Qed.

Lemma updateParent_descendant i p menu st :
  p <> i -> hasId p (findDescendants menu (rows st)) ->
  updateParent i (Some (Some p)) menu st =
  (Err (BadRequestException "Cannot move a node into its descendant"), st).
Proof.
  intros Hp Hd. unfold updateParent.
  apply Z.eqb_neq in Hp. rewrite Hp.
  destruct (@findDescendants_stored menu (rows st) p Hd) as [np Hnp].
  unfold bind, query. rewrite Hnp.
  rewrite (findOneById_id _ _ Hnp).
  apply existsb_hasId in Hd. rewrite Hd. reflexivity.
Qed.

Lemma updateParent_ok i p menu st :
  p <> i -> findOneById p (rows st) <> None ->
  ~ hasId p (findDescendants menu (rows st)) ->
  updateParent i (Some (Some p)) menu st = (Ok (set_parent menu (Some p)), st).
Proof.
  intros Hp Hsome Hd. unfold updateParent.
  apply Z.eqb_neq in Hp. rewrite Hp.
  destruct (findOneById p (rows st)) as [np|] eqn:Hnp; [|contradiction].
  unfold bind, query. rewrite Hnp.
  rewrite (findOneById_id _ _ Hnp).
  destruct (existsb _ _) eqn:E; [|reflexivity].
  apply existsb_hasId in E. contradiction.
Qed.

Lemma rowById_replaceRow r t o :
  rowById (row_id r) t = Some o -> rowById (row_id r) (replaceRow r t) = Some r.
Proof.
  unfold rowById, replaceRow.
  induction t as [|x t IH]; simpl; [discriminate|].
  destruct (Z.eqb (row_id x) (row_id r)) eqn:E.
  - intros _. rewrite Z.eqb_refl. reflexivity.
  - rewrite E. exact IH.
Qed.

Section UpdateFacts.

Variable normalizeNFKC : jsstring -> jsstring.
Variables isL isN : codepoint -> bool.
Variable toLowerCase : jsstring -> jsstring.
Variable save_violation : list Row -> Row -> option string.

Local Abbreviation save' := (save save_violation).
Local Abbreviation saveOrConflict' := (saveOrConflict save_violation).
Local Abbreviation update' := (update normalizeNFKC isL isN save_violation).
Local Abbreviation update2' := (update2 toLowerCase save_violation).
Local Abbreviation reslug' := (reslug normalizeNFKC isL isN).

Lemma reslug_run source uuid menu st :
  exists menu', reslug' source uuid menu st = (Ok menu', st)
                /\ id menu' = id menu.
Proof.
  unfold reslug. cbv zeta.
  destruct (negb (streq _ _)).
  - unfold bind. rewrite ensureUniqueSlug_run. eexists. split; reflexivity.
  - eexists. split; reflexivity.
Qed.

(** Steps 1 and 2 of the first variant read the table and cannot fail:
    [update] is its steps 3 and 4 on some entity of the same node. *)
Lemma update_prefix i dto uuid st menu0 :
  findOneById i (rows st) = Some menu0 ->
  exists menu1,
    id menu1 = Some i
    /\ update' i dto uuid st =
       bind (updateParent i (UpdateMenuDto.parentId dto) menu1)
            (fun menu =>
               saveOrConflict'
                 (applyOpt (UpdateMenuDto.isActive dto) set_isActive
                    (applyOpt (UpdateMenuDto.order dto) set_order menu))) st.
Proof.
  intros Hfind. pose proof (findOneById_id _ _ Hfind) as Hid.
  unfold update.
  unfold bind at 1, findOne, bind at 1, query at 1. rewrite Hfind.
  unfold ret at 1.
  destruct (updateName (UpdateMenuDto.name dto) menu0)
    as [menu nameChanged] eqn:Hname.
  assert (Hid1 : id menu = Some i).
  { unfold updateName in Hname.
    destruct (UpdateMenuDto.name dto); injection Hname as <- _; assumption. }
  unfold bind at 1.
  destruct (UpdateMenuDto.slug dto) as [s|].
  - match goal with
    | |- context [reslug _ _ _ ?src uuid menu st] =>
        destruct (reslug_run src uuid menu st) as (menu' & Hr & Hid')
    end.
    rewrite Hr.
    exists menu'. split; [congruence | reflexivity].
  - destruct nameChanged.
    + destruct (reslug_run (name menu) uuid menu st) as (menu' & Hr & Hid').
      rewrite Hr.
      exists menu'. split; [congruence | reflexivity].
    + exists menu. split; [assumption | reflexivity].
Qed.

(** The second variant checks the requested slug first. *)
Lemma update2_clash i dto st menu0 :
  findOneById i (rows st) = Some menu0 ->
  slugClash i dto (rows st) = true ->
  update2' i dto st = (Err (BadRequestException "Slug already exists"), st).
Proof.
  intros Hfind Hclash.
  unfold update2', update2. cbv zeta.
  unfold bind at 1, findOne, bind at 1, query at 1. rewrite Hfind.
  unfold ret at 1. unfold bind at 1. unfold slugClash in Hclash.
  destruct (UpdateMenuDto.slug dto) as [s|]; [|discriminate].
  destruct (isEmpty s); [discriminate|].
  unfold bind at 1, query at 1.
  destruct (findOneBySlug (trim s) (rows st)) as [d|]; [|discriminate].
  rewrite Hclash. reflexivity.
Qed.

Lemma update2_prefix i dto st menu0 :
  findOneById i (rows st) = Some menu0 ->
  slugClash i dto (rows st) = false ->
  exists menu1,
    id menu1 = Some i
    /\ update2' i dto st =
       bind (updateParent i (UpdateMenuDto.parentId dto) menu1) save' st.
Proof.
  intros Hfind Hclash. pose proof (findOneById_id _ _ Hfind) as Hid.
  unfold update2', update2. cbv zeta.
  unfold bind at 1, findOne, bind at 1, query at 1. rewrite Hfind.
  unfold ret at 1.
  set (menu := match UpdateMenuDto.name dto with
               | Some n => if isEmpty n then menu0
                           else set_slug (set_name menu0 (trim n)) (toSlug toLowerCase n)
               | None => menu0
               end).
  assert (Hid1 : id menu = Some i).
  { subst menu. destruct (UpdateMenuDto.name dto) as [n|]; [|assumption].
    destruct (isEmpty n); assumption. }
  unfold bind at 1. unfold slugClash in Hclash.
  destruct (UpdateMenuDto.slug dto) as [s|].
  - destruct (isEmpty s).
    + eexists. split; [|reflexivity].
      destruct (UpdateMenuDto.order dto), (UpdateMenuDto.isActive dto);
        assumption.
    + unfold bind at 1, query at 1.
      destruct (findOneBySlug (trim s) (rows st)) as [d|].
      * rewrite Hclash. eexists. split; [|reflexivity].
        destruct (UpdateMenuDto.order dto), (UpdateMenuDto.isActive dto);
          assumption.
      * eexists. split; [|reflexivity].
        destruct (UpdateMenuDto.order dto), (UpdateMenuDto.isActive dto);
          assumption.
  - eexists. split; [|reflexivity].
    destruct (UpdateMenuDto.order dto), (UpdateMenuDto.isActive dto);
      assumption.
Qed.

(** A successful [save] of a stored node whose parent has been assigned
    stores that parent. *)
Lemma save_update_parent e i q st m st' :
  id e = Some i -> parent e = Loaded q ->
  rowById i (rows st) <> None ->
  save' e st = (Ok m, st') ->
  exists r, rowById i (rows st') = Some r /\ row_parentId r = q.
Proof.
  intros Hid Hpar Hold. unfold save. rewrite Hid.
  fold (rowById i (rows st)).
  destruct (rowById i (rows st)) as [o|] eqn:Ho; [|contradiction].
  destruct (save_violation _ _); [discriminate|].
  intros [= <- <-]. simpl.
  eexists. split.
  - apply (@rowById_replaceRow (mkRow i _ _ _ _ _) (rows st) o). exact Ho.
  - simpl. unfold parentColumn. rewrite Hpar. reflexivity.
Qed.

End UpdateFacts.

(** * The claims *)

(** ** Slug normalizer *)

(** C6.  For every input string, [unicodeSlug] returns the result of the five
    steps of the specification: NFKC normalization and trimming, every
    white-space run replaced by one hyphen, every character outside letters,
    digits, [-], [_], [.] and [~] removed, consecutive hyphens collapsed,
    leading and trailing hyphens stripped; and it returns the empty string on
    every input that [isEmptyOrHyphens] classifies as empty.  The one fact
    used of the normalization form is that it turns a string of white space
    and hyphens into such a string. *)
Theorem unicodeSlug_normalizes
    (nfkc : jsstring -> jsstring) (isL isN : codepoint -> bool)
    (input : jsstring) :
  (forallb isBlank input = true -> forallb isBlank (nfkc input) = true) ->
  unicodeSlug nfkc isL isN input = normalize_spec nfkc isL isN input
  /\ (isEmptyOrHyphens (Some input) = true ->
      unicodeSlug nfkc isL isN input = []).
Proof.
  intros Hnfkc. rewrite unicodeSlug_steps. split.
  - destruct input as [|c s]; [|reflexivity].
    simpl. symmetry. apply steps_blank, Hnfkc. reflexivity.
  - intros H. apply isEmptyOrHyphens_blank in H.
    destruct (isEmpty input); [reflexivity|].
    apply steps_blank, Hnfkc, H.
Qed.

Lemma unicodeSlug_normalizes_witness :
  isEmptyOrHyphens (Some (str " - - ")) = true
  /\ Pg.unicodeSlug (str " - - ") = []
  /\ Pg.unicodeSlug (str " - - ") =
     normalize_spec UnicodeExcerpt.normalizeNFKC UnicodeExcerpt.isL
                    UnicodeExcerpt.isN (str " - - ").
Proof.
  destruct (@unicodeSlug_normalizes UnicodeExcerpt.normalizeNFKC
              UnicodeExcerpt.isL UnicodeExcerpt.isN (str " - - "))
    as [Hsteps Hempty].
  - intros _. vm_compute. reflexivity.
  - split; [reflexivity|]. split; [apply Hempty; reflexivity | exact Hsteps].
Defined.

(** The examples of the specification. *)
Example unicodeSlug_examples :
  Pg.unicodeSlug (str "  Hello   World!! ") = str "Hello-World"
  /\ Pg.unicodeSlug (str "---") = [].
Proof. split; vm_compute; reflexivity. Qed.

(** C9, as the code has it.  [unicodeSlug] is idempotent on every string
    whose slug is in NFKC form: if normalizing the slug of [x] gives that slug
    back, so does [unicodeSlug]. *)
Theorem unicodeSlug_idempotent
    (nfkc : jsstring -> jsstring) (isL isN : codepoint -> bool)
    (x : jsstring) :
  nfkc (unicodeSlug nfkc isL isN x) = unicodeSlug nfkc isL isN x ->
  unicodeSlug nfkc isL isN (unicodeSlug nfkc isL isN x) =
  unicodeSlug nfkc isL isN x.
Proof.
  rewrite (unicodeSlug_steps nfkc isL isN x).
  destruct (isEmpty x); [reflexivity|].
  intros Hn. rewrite unicodeSlug_steps.
  destruct (isEmpty (normalize_spec nfkc isL isN x)) eqn:E.
  - apply isEmpty_true in E. congruence.
  - apply (steps_fixed nfkc isL isN nfkc x Hn).
Qed.

Lemma unicodeSlug_idempotent_witness :
  Pg.unicodeSlug (Pg.unicodeSlug (str "  Hello   World!! ")) =
  Pg.unicodeSlug (str "  Hello   World!! ").
Proof.
  apply (@unicodeSlug_idempotent UnicodeExcerpt.normalizeNFKC
           UnicodeExcerpt.isL UnicodeExcerpt.isN).
  vm_compute. reflexivity.
Defined.

(** C9, as the specification states it, fails.  Between the leading
    consonant U+1100 and the vowel U+1161 the exclamation mark keeps NFKC
    from composing; [unicodeSlug] removes it, and normalizing the slug again
    composes the syllable U+AC00. *)
Lemma unicodeSlug_not_idempotent :
  Pg.unicodeSlug [0x1100; 0x21; 0x1161]%N = [0x1100; 0x1161]%N
  /\ Pg.unicodeSlug (Pg.unicodeSlug [0x1100; 0x21; 0x1161]%N) = [0xAC00]%N
  /\ Pg.unicodeSlug (Pg.unicodeSlug [0x1100; 0x21; 0x1161]%N)
     <> Pg.unicodeSlug [0x1100; 0x21; 0x1161]%N.
Proof.
  split; [vm_compute; reflexivity|].
  split; [vm_compute; reflexivity|].
  vm_compute. discriminate.
Qed.

(** ** Slug uniqueness resolver *)

(** C3.  [ensureUniqueSlug] returns [base] unchanged when no row has that
    slug, and otherwise [base-i] for the least [i >= 2] such that no row has
    slug [base-i]; with the slugs "a" and "a-2" in use, "a" resolves to
    "a-3".  It always returns, and reads only. *)
Theorem ensureUniqueSlug_least (base : jsstring) (st : Store) :
  exists r,
    ensureUniqueSlug base st = (Ok r, st)
    /\ (existSlug base (rows st) = false -> r = base)
    /\ (existSlug base (rows st) = true ->
        exists i, (2 <= i)%N
          /\ r = candidate base i
          /\ existSlug (candidate base i) (rows st) = false
          /\ forall j, (2 <= j < i)%N ->
               existSlug (candidate base j) (rows st) = true)
    /\ (base = str "a" ->
        (forall s, existSlug s (rows st) = true <->
                   s = str "a" \/ s = str "a-2") ->
        r = str "a-3").
Proof.
  rewrite ensureUniqueSlug_run. eexists. split; [reflexivity|].
  destruct (existSlug base (rows st)) eqn:Hbase.
  - destruct (ensureUniqueSlug_loop_least (rows st) base Hbase)
      as (i & Hi & Hr & Hfree & Hused).
    split; [discriminate|]. split.
    + intros _. exists i. auto.
    + intros -> Hslugs. rewrite Hr.
      assert (i = 3%N) as ->; [|reflexivity].
      assert (H2 : i <> 2%N).
      { intros ->. assert (H : existSlug (candidate (str "a") 2) (rows st) = true)
          by (apply Hslugs; right; reflexivity).
        congruence. }
      assert (H3 : ~ (3 < i)%N).
      { intros Hlt. assert (H : existSlug (candidate (str "a") 3) (rows st) = true)
          by (apply Hused; lia).
        apply Hslugs in H as [H|H]; discriminate H. }
      lia.
  - split; [reflexivity|]. split; [discriminate|].
    intros -> Hslugs.
    assert (H : existSlug (str "a") (rows st) = true)
      by (apply Hslugs; left; reflexivity).
    congruence.
Qed.

Lemma ensureUniqueSlug_least_witness :
  existSlug (str "a") (rows Pg.abcd) = true
  /\ exists i, (2 <= i)%N
       /\ fst (ensureUniqueSlug (str "a") Pg.abcd) = Ok (candidate (str "a") i)
       /\ existSlug (candidate (str "a") i) (rows Pg.abcd) = false.
Proof.
  split; [reflexivity|].
  destruct (ensureUniqueSlug_least (str "a") Pg.abcd)
    as (r & Hr & _ & Hused & _).
  destruct (Hused eq_refl) as (i & Hi & Hri & Hfree & _).
  exists i. rewrite Hr, Hri. auto.
Defined.

Example ensureUniqueSlug_a3 :
  fst (ensureUniqueSlug (str "a") Pg.abcd) = Ok (str "a-3").
Proof. vm_compute. reflexivity. Qed.

(** ** Order assigner and defaults of [create] *)

(** C4.  A [create] request without [order], in either variant, is given one
    more than the greatest order among the rows that share the new node's
    parent (the parentless rows are a group of their own), and 1 when there
    is no such row. *)
Theorem create_assigns_next_order
    (nfkc : jsstring -> jsstring) (isL isN : codepoint -> bool)
    (lower : jsstring -> jsstring)
    (sv : list Row -> Row -> option string)
    (v : ServiceVariant) (dto : CreateMenuDto.t) (uuid : jsstring)
    (st : Store) (m : Menu) (st' : Store) :
  CreateMenuDto.order dto = None ->
  createOf nfkc isL isN lower sv v dto uuid st = (Ok m, st') ->
  exists pid r,
    parent m = Loaded pid
    /\ rows st' = rows st ++ [r]
    /\ row_parentId r = pid /\ row_order r = order m
    /\ let group := map row_order (whereParent pid (rows st)) in
       (group = [] /\ order m = 1%Z)
       \/ (exists M, isMax M group /\ order m = (M + 1)%Z).
Proof.
  intros Hnone H.
  assert (Hc : create nfkc isL isN sv dto uuid st = (Ok m, st')
               \/ create2 lower sv dto st = (Ok m, st'))
    by (destruct v; [left | right]; exact H).
  apply create_inv in Hc as (slug & parent & Hm & Hrows).
  cbv zeta in Hm, Hrows. rewrite Hnone in Hm, Hrows.
  eexists _, _. split; [rewrite Hm; reflexivity|].
  split; [exact Hrows|]. split; [reflexivity|].
  split; [rewrite Hm; reflexivity|].
  cbv zeta. rewrite Hm. simpl order.
  destruct (maxOrder_spec
              match parent with Some p => id p | None => None end (rows st))
    as [[Hnil ->]|(M & HM & ->)].
  - left. auto.
  - right. exists M. auto.
Qed.

Lemma create_assigns_next_order_witness :
  Pg.create Sample.createE [] Pg.abcd = (Ok Sample.createdE, Sample.afterE)
  /\ exists pid r,
       parent Sample.createdE = Loaded pid
       /\ rows Sample.afterE = rows Pg.abcd ++ [r]
       /\ row_parentId r = pid /\ row_order r = order Sample.createdE
       /\ let group := map row_order (whereParent pid (rows Pg.abcd)) in
          (group = [] /\ order Sample.createdE = 1%Z)
          \/ (exists M, isMax M group /\ order Sample.createdE = (M + 1)%Z).
Proof.
  assert (E : Pg.create Sample.createE [] Pg.abcd =
              (Ok Sample.createdE, Sample.afterE))
    by (vm_compute; reflexivity).
  split; [exact E|].
  exact (@create_assigns_next_order UnicodeExcerpt.normalizeNFKC
           UnicodeExcerpt.isL UnicodeExcerpt.isN
           UnicodeExcerpt.toLowerCase Schema.save_violation
           V1 Sample.createE [] Pg.abcd Sample.createdE Sample.afterE
           eq_refl E).
Defined.

(** The examples of the specification: the first root gets order 1, and a
    group whose greatest order is 5 gives 6. *)
Example create_order_examples :
  (exists m st', Pg.create Sample.createE [] (mkStore [] 0) = (Ok m, st')
                 /\ order m = 1%Z)
  /\ (exists m st', Pg.create Sample.createE [] Pg.abcd = (Ok m, st')
                    /\ order m = 6%Z)
  /\ (exists m st', Pg.create2 Sample.createE Pg.abcd = (Ok m, st')
                    /\ order m = 6%Z).
Proof.
  repeat split; eexists _, _; (split; [vm_compute; reflexivity|]);
    reflexivity.
Qed.

(** C10.  The node a [create] request makes, in either variant, is active
    unless the request says otherwise: [isActive] is [true] when the request
    has none, and the requested value when it has one; the inserted row
    carries the same value. *)
Theorem create_isActive_default
    (nfkc : jsstring -> jsstring) (isL isN : codepoint -> bool)
    (lower : jsstring -> jsstring)
    (sv : list Row -> Row -> option string)
    (v : ServiceVariant) (dto : CreateMenuDto.t) (uuid : jsstring)
    (st : Store) (m : Menu) (st' : Store) :
  createOf nfkc isL isN lower sv v dto uuid st = (Ok m, st') ->
  (CreateMenuDto.isActive dto = None -> isActive m = true)
  /\ (forall b, CreateMenuDto.isActive dto = Some b -> isActive m = b)
  /\ exists r, rows st' = rows st ++ [r]
               /\ Some (row_id r) = id m /\ row_isActive r = isActive m.
Proof.
  intros H.
  assert (Hc : create nfkc isL isN sv dto uuid st = (Ok m, st')
               \/ create2 lower sv dto st = (Ok m, st'))
    by (destruct v; [left | right]; exact H).
  apply create_inv in Hc as (slug & parent & Hm & Hrows).
  cbv zeta in Hm, Hrows.
  split; [|split].
  - intros Hnone. rewrite Hm. simpl. rewrite Hnone. reflexivity.
  - intros b Hb. rewrite Hm. simpl. rewrite Hb. reflexivity.
  - eexists. split; [exact Hrows|]. rewrite Hm. split; reflexivity.
Qed.

Lemma create_isActive_default_witness :
  Pg.create2 Sample.createUnderA Pg.abcd =
  (Ok Sample.createdUnderA, Sample.afterUnderA)
  /\ CreateMenuDto.isActive Sample.createUnderA = Some false
  /\ isActive Sample.createdUnderA = false.
Proof.
  assert (E : Pg.create2 Sample.createUnderA Pg.abcd =
              (Ok Sample.createdUnderA, Sample.afterUnderA))
    by (vm_compute; reflexivity).
  split; [exact E|]. split; [reflexivity|].
  destruct (@create_isActive_default UnicodeExcerpt.normalizeNFKC
              UnicodeExcerpt.isL UnicodeExcerpt.isN
              UnicodeExcerpt.toLowerCase Schema.save_violation
              V2 Sample.createUnderA [] Pg.abcd
              Sample.createdUnderA Sample.afterUnderA E)
    as (_ & Hsome & _).
  apply Hsome. reflexivity.
Defined.

(** ** Atomicity *)

(** C5.  [create], [update] and [remove], in either variant, are atomic with
    respect to the stored rows: when the operation throws, at whatever step,
    the table is the one it started from; and a [create] that returns has
    inserted exactly one row.  (The id sequence is not row data, and no
    database gives a drawn value back.) *)
Theorem mutations_atomic
    (nfkc : jsstring -> jsstring) (isL isN : codepoint -> bool)
    (lower : jsstring -> jsstring)
    (sv : list Row -> Row -> option string)
    (rv : list Row -> Z -> option string)
    (v : ServiceVariant) (st : Store) (e : Exception) (st' : Store) :
  (forall dto uuid,
     createOf nfkc isL isN lower sv v dto uuid st = (Err e, st') ->
     rows st' = rows st)
  /\ (forall i dto uuid,
        updateOf nfkc isL isN lower sv v i dto uuid st = (Err e, st') ->
        rows st' = rows st)
  /\ (forall i, remove rv i st = (Err e, st') -> rows st' = rows st)
  /\ (forall dto uuid m st1,
        createOf nfkc isL isN lower sv v dto uuid st = (Ok m, st1) ->
        exists r, rows st1 = rows st ++ [r]).
Proof.
  repeat split.
  - intros dto uuid H. destruct v.
    + exact (@atomic_create nfkc isL isN sv dto uuid st e st' H).
    + exact (@atomic_create2 lower sv dto st e st' H).
  - intros i dto uuid H. destruct v.
    + exact (@atomic_update nfkc isL isN sv i dto uuid st e st' H).
    + exact (@atomic_update2 lower sv i dto st e st' H).
  - intros i H. exact (@atomic_remove rv i st e st' H).
  - intros dto uuid m st1 H.
    assert (Hc : create nfkc isL isN sv dto uuid st = (Ok m, st1)
                 \/ create2 lower sv dto st = (Ok m, st1))
      by (destruct v; [left | right]; exact H).
    apply create_inv in Hc as (slug & parent & _ & Hrows).
    eexists. exact Hrows.
Qed.

Lemma mutations_atomic_witness :
  Pg.create Sample.createA [] Pg.abcd =
  (Err (BadRequestException "Duplicate slug or order for this parent"),
   mkStore (rows Pg.abcd) 5)
  /\ rows (mkStore (rows Pg.abcd) 5) = rows Pg.abcd.
Proof.
  assert (E : Pg.create Sample.createA [] Pg.abcd =
              (Err (BadRequestException
                      "Duplicate slug or order for this parent"),
               mkStore (rows Pg.abcd) 5))
    by (vm_compute; reflexivity).
  split; [exact E|].
  destruct (@mutations_atomic UnicodeExcerpt.normalizeNFKC
              UnicodeExcerpt.isL UnicodeExcerpt.isN
              UnicodeExcerpt.toLowerCase Schema.save_violation
              Schema.remove_violation V1 Pg.abcd
              (BadRequestException "Duplicate slug or order for this parent")
              (mkStore (rows Pg.abcd) 5))
    as (Hcreate & _).
  exact (Hcreate Sample.createA [] E).
Defined.

(** Failures at each step leave the table alone: a missing parent, a
    duplicate refused by the database inside the transaction, a move into a
    descendant, a delete refused by the database. *)
Example atomic_examples :
  rows (snd (Pg.create2 Sample.createUnder99 Pg.abcd)) = rows Pg.abcd
  /\ fst (Pg.create2 Sample.createAzz Pg.abcd) =
     Err (BadRequestException "Duplicate slug or order for this parent")
  /\ rows (snd (Pg.create2 Sample.createAzz Pg.abcd)) = rows Pg.abcd
  /\ rows (snd (Pg.update 1 (Sample.moveTo 3) [] Pg.abcd)) = rows Pg.abcd
  /\ rows (snd (Pg.remove 1 Pg.abcd)) = rows Pg.abcd.
Proof. repeat split; vm_compute; reflexivity. Qed.

(** ** Tree-mutation guard *)

(** C2, as the code has it.  For an existing node [i] and an update request
    that sets [parentId] to [p] (in the second variant: whose slug, if any,
    is not the slug of another node), [update] throws the conflict "Cannot
    set parent to itself" when [p] is [i]; throws the conflict "Cannot move a
    node into its descendant" when [p] is another member of the descendant
    set of the node; throws NotFound when no node has id [p]; and otherwise
    assigns [p] as the parent of the entity it saves, so that the stored row
    has parent [p] when the operation returns. *)
Theorem update_parent_guard
    (nfkc : jsstring -> jsstring) (isL isN : codepoint -> bool)
    (lower : jsstring -> jsstring)
    (sv : list Row -> Row -> option string)
    (v : ServiceVariant) (i : Z) (dto : UpdateMenuDto.t) (uuid : jsstring)
    (st : Store) (menu : Menu) (p : Z) :
  findOneById i (rows st) = Some menu ->
  UpdateMenuDto.parentId dto = Some (Some p) ->
  (v = V2 -> slugClash i dto (rows st) = false) ->
  let result := updateOf nfkc isL isN lower sv v i dto uuid st in
  let descendants := findDescendants menu (rows st) in
  (p = i ->
   result = (Err (BadRequestException "Cannot set parent to itself"), st))
  /\ (p <> i -> hasId p descendants ->
      result =
      (Err (BadRequestException "Cannot move a node into its descendant"), st))
  /\ (findOneById p (rows st) = None ->
      result = (Err (NotFoundException "New parent not found"), st))
  /\ (p <> i -> ~ hasId p descendants -> findOneById p (rows st) <> None ->
      exists menu',
        id menu' = Some i /\ parent menu' = Loaded (Some p)
        /\ result = persistOf sv v menu' st
        /\ forall m st', result = (Ok m, st') ->
             exists r, rowById i (rows st') = Some r
                       /\ row_parentId r = Some p).
Proof.
  intros Hfind Hpid Hclash result descendants.
  assert (Hrun : exists menu1 (k : Menu -> Menu),
             id menu1 = Some i
             /\ (forall x, id (k x) = id x /\ parent (k x) = parent x)
             /\ result =
                bind (updateParent i (Some (Some p)) menu1)
                     (fun x => persistOf sv v (k x)) st).
  { subst result. destruct v; simpl.
    - destruct (update_prefix nfkc isL isN sv i dto uuid st Hfind)
        as (menu1 & Hid & ->).
      rewrite Hpid. eexists menu1, _. split; [assumption|].
      split; [|reflexivity].
      intros x. destruct (UpdateMenuDto.order dto),
                  (UpdateMenuDto.isActive dto); split; reflexivity.
    - destruct (update2_prefix lower sv i dto st Hfind (Hclash eq_refl))
        as (menu1 & Hid & ->).
      rewrite Hpid. exists menu1, (fun x => x). split; [assumption|].
      split; [|reflexivity]. intros x. split; reflexivity. }
  destruct Hrun as (menu1 & k & Hid & Hk & Hres).
  assert (Hdesc : findDescendants menu1 (rows st) = descendants).
  { apply findDescendants_ext. rewrite Hid.
    symmetry. exact (findOneById_id _ _ Hfind). }
  assert (Hne : findOneById p (rows st) = None -> p <> i)
    by (intros Hnone ->; congruence).
  repeat split.
  - intros ->. rewrite Hres. unfold bind. rewrite updateParent_self.
    reflexivity.
  - intros Hp Hd. rewrite Hres. unfold bind.
    rewrite updateParent_descendant by (try rewrite Hdesc; assumption).
    reflexivity.
  - intros Hnone. rewrite Hres. unfold bind.
    rewrite updateParent_missing by auto. reflexivity.
  - intros Hp Hd Hsome. exists (k (set_parent menu1 (Some p))).
    destruct (Hk (set_parent menu1 (Some p))) as [Hkid Hkpar].
    assert (Hr : result = persistOf sv v (k (set_parent menu1 (Some p))) st).
    { rewrite Hres. unfold bind.
      rewrite updateParent_ok by (try rewrite Hdesc; assumption).
      reflexivity. }
    split; [rewrite Hkid; exact Hid|].
    split; [rewrite Hkpar; reflexivity|].
    split; [exact Hr|].
    intros m st' Hok. rewrite Hr in Hok.
    assert (Hsave : save sv (k (set_parent menu1 (Some p))) st = (Ok m, st')).
    { destruct v; simpl in Hok; [apply saveOrConflict_ok|]; exact Hok. }
    apply (@save_update_parent sv (k (set_parent menu1 (Some p))) i (Some p)
             st m st'); auto.
    + rewrite Hkid. exact Hid.
    + apply findOneById_inv in Hfind as (r & Hr' & _). congruence.
Qed.

Lemma update_parent_guard_witness :
  findOneById 2 (rows Pg.abcd) = Some (entity_of_row Pg.B)
  /\ slugClash 2 (Sample.moveTo 2) (rows Pg.abcd) = false
  /\ Pg.update2 2 (Sample.moveTo 2) Pg.abcd =
     (Err (BadRequestException "Cannot set parent to itself"), Pg.abcd).
Proof.
  split; [reflexivity|]. split; [reflexivity|].
  destruct (@update_parent_guard UnicodeExcerpt.normalizeNFKC
              UnicodeExcerpt.isL UnicodeExcerpt.isN
              UnicodeExcerpt.toLowerCase Schema.save_violation
              V2 2%Z (Sample.moveTo 2) [] Pg.abcd (entity_of_row Pg.B) 2%Z
              eq_refl eq_refl (fun _ => eq_refl))
    as (Hself & _).
  exact (Hself eq_refl).
Defined.

(** The examples of the specification on the tree [A -> B -> C]: moving [A]
    under [C] and [B] under [B] fails, moving [C] under [A] succeeds. *)
Example reparent_examples :
  fst (Pg.update 1 (Sample.moveTo 3) [] Pg.abcd) =
    Err (BadRequestException "Cannot move a node into its descendant")
  /\ fst (Pg.update 2 (Sample.moveTo 2) [] Pg.abcd) =
       Err (BadRequestException "Cannot set parent to itself")
  /\ rowById 3 (rows (snd (Pg.update 3 (Sample.moveTo 1) [] Pg.abcd))) =
       Some (mkRow 3 (str "C") (str "c") 1 true (Some 1%Z)).
Proof. repeat split; vm_compute; reflexivity. Qed.

(** C2, as the specification states it, fails on the second variant: no node
    has id 99, yet a request that also names the slug of another node is
    refused as a duplicate before its parent is looked at. *)
Lemma update2_clash_before_parent :
  findOneById 1 (rows Pg.abcd) = Some (entity_of_row Pg.A)
  /\ UpdateMenuDto.parentId Sample.slugAndMove = Some (Some 99%Z)
  /\ findOneById 99 (rows Pg.abcd) = None
  /\ Pg.update2 1 Sample.slugAndMove Pg.abcd =
     (Err (BadRequestException "Slug already exists"), Pg.abcd)
  /\ Pg.update2 1 Sample.slugAndMove Pg.abcd <>
     (Err (NotFoundException "New parent not found"), Pg.abcd).
Proof.
  repeat split; try (vm_compute; reflexivity).
  vm_compute. discriminate.
Qed.

(** ** Delete guard *)

(** [findOne] loads no relation, so the guard of [remove] never fires:
    [remove] is [findOne] followed by [repo.remove]. *)
Lemma remove_guard_dead rv i st :
  remove rv i st = bind (findOne i) (repo_remove rv) st.
Proof.
  unfold remove, bind, findOne, bind, query.
  destruct (findOneById i (rows st)) as [m|] eqn:E; [|reflexivity].
  apply findOneById_inv in E as (r & _ & _ & _ & ->). reflexivity.
Qed.

(** C1 on the code.  Node 1 has the child 2.  [remove(1)] does not throw the
    conflict of its guard: under the schema of the entity it throws the
    foreign-key error of the database, and on a table without that constraint
    it deletes the node and reports success. *)
Theorem remove_parent_not_conflict :
  rowById 2 (rows Pg.abcd) = Some Pg.B /\ row_parentId Pg.B = Some 1%Z
  /\ Pg.remove 1 Pg.abcd = (Err (QueryFailedError "23503"), Pg.abcd)
  /\ remove Schema.no_violation 1 Pg.abcd =
     (Ok tt, mkStore [Pg.B; Pg.C; Pg.D] 4).
Proof. repeat split. Qed.

(** The two cases of C1 that the code does meet: a childless node is deleted,
    and an id that no node has is NotFound. *)
Example remove_examples :
  Pg.remove 3 Pg.abcd = (Ok tt, mkStore [Pg.A; Pg.B; Pg.D] 4)
  /\ Pg.remove 99 Pg.abcd = (Err (NotFoundException "Menu not found"), Pg.abcd).
Proof. split; reflexivity. Qed.

(** ** Subtree query *)

(** [findTreeById] returns roots only. *)
Lemma findTreeById_root i st m st' :
  findTreeById i st = (Ok m, st') ->
  exists r, In r (rows st) /\ row_id r = i /\ row_parentId r = None.
Proof.
  unfold findTreeById, bind, query.
  destruct (find _ (findTrees (rows st))) as [root|] eqn:E; [|discriminate].
  intros _. apply find_some in E as [Hin Hid].
  unfold findTrees in Hin. apply in_map_iff in Hin as (r & <- & Hr).
  apply filter_In in Hr as [Hr Hroot].
  exists r. split; [assumption|]. split.
  - destruct (length (rows st)); simpl in Hid; apply Z.eqb_eq in Hid;
      assumption.
  - destruct (row_parentId r); [discriminate | reflexivity].
Qed.

(** C7 on the code.  Node 2 is a child of root 1 and is in the tree
    [findTreeById(1)] returns, yet [findTreeById(2)] is NotFound. *)
Theorem findTreeById_misses_descendant :
  (exists t kids, findTreeById 1 Pg.abcd = (Ok t, Pg.abcd)
                  /\ children t = Loaded kids /\ hasId 2 kids)
  /\ findTreeById 2 Pg.abcd =
     (Err (NotFoundException "Menu not found"), Pg.abcd).
Proof.
  split; [|reflexivity].
  eexists _, _. split; [reflexivity|]. split; [reflexivity|].
  eexists. split; [left; reflexivity | reflexivity].
Qed.

(** ** Name update *)

(** C8 on the code.  Node 1 is named "A"; the request supplies the name
    ["   "], whose trimmed value is empty.  Both variants store the empty
    name (the second also the empty slug). *)
Theorem update_blank_name_stored :
  trim (str "   ") = []
  /\ rowById 1 (rows Pg.abcd) = Some (mkRow 1 (str "A") (str "a") 1 true None)
  /\ rowById 1 (rows (snd (Pg.update 1 Sample.blankName [] Pg.abcd))) =
     Some (mkRow 1 [] (str "a") 1 true None)
  /\ rowById 1 (rows (snd (Pg.update2 1 Sample.blankName Pg.abcd))) =
     Some (mkRow 1 [] [] 1 true None).
Proof. repeat split; vm_compute; reflexivity. Qed.


(** * Further properties of the code *)

(** ** utils/slug.util.ts *)

Lemma strip_fixed_ends p s :
  strip p s = s -> startsWith p s = false /\ startsWith p (rev s) = false.
Proof.
  intros H. split.
  - rewrite <- H. unfold strip.
    destruct (startsWith p (dropWhileEnd p (dropWhile p s))) eqn:E; auto.
    apply startsWith_dropWhileEnd in E.
    rewrite startsWith_dropWhile in E. discriminate.
  - rewrite <- H. unfold strip, dropWhileEnd. rewrite rev_involutive.
    apply startsWith_dropWhile.
Qed.

Lemma ends_strip_fixed p s :
  startsWith p s = false -> startsWith p (rev s) = false -> strip p s = s.
Proof.
  intros H1 H2. unfold strip, dropWhileEnd.
  rewrite (@dropWhile_id p s H1), (@dropWhile_id p (rev s) H2).
  apply rev_involutive.
Qed.

(** Whatever the input, the slug [unicodeSlug] returns is made of letters,
    numbers, [-], [_], [.] and [~] only, holds no white space, neither
    starts nor ends with a hyphen, and has no two hyphens in a row. *)
Theorem unicodeSlug_shape
    (nfkc : jsstring -> jsstring) (isL isN : codepoint -> bool)
    (input : jsstring) :
  let y := unicodeSlug nfkc isL isN input in
  forallb (isSlugChar isL isN) y = true
  /\ forallb (fun c => negb (isWhiteSpace c)) y = true
  /\ startsWith isHyphen y = false
  /\ startsWith isHyphen (rev y) = false
  /\ noRun isHyphen y = true.
Proof.
  cbv zeta. rewrite unicodeSlug_steps.
  destruct (isEmpty input); [repeat split|].
  destruct (steps_shape nfkc isL isN input) as (Hw & Hk & Hr & Hs).
  destruct (@strip_fixed_ends _ _ Hs) as [Hhd Htl].
  repeat split; assumption.
Qed.

(** A string of that shape that NFKC leaves alone is a slug already:
    [unicodeSlug] returns it unchanged. *)
Theorem unicodeSlug_keeps_slugs
    (nfkc : jsstring -> jsstring) (isL isN : codepoint -> bool)
    (s : jsstring) :
  nfkc s = s ->
  forallb (isSlugChar isL isN) s = true ->
  forallb (fun c => negb (isWhiteSpace c)) s = true ->
  startsWith isHyphen s = false ->
  startsWith isHyphen (rev s) = false ->
  noRun isHyphen s = true ->
  unicodeSlug nfkc isL isN s = s.
Proof.
  intros Hn Hk Hw Hhd Htl Hr. rewrite unicodeSlug_steps.
  destruct s as [|c s']; [reflexivity|]. cbv [isEmpty].
  unfold normalize_spec. rewrite Hn.
  rewrite (@none_strip isWhiteSpace (c :: s') Hw).
  rewrite (@none_squeeze isWhiteSpace hyphen (c :: s') Hw).
  rewrite (@filter_id _ (c :: s') Hk).
  rewrite (@noRun_squeeze_id isHyphen hyphen (c :: s') isHyphen_eq Hr).
  apply ends_strip_fixed; assumption.
Qed.

Lemma unicodeSlug_keeps_slugs_witness :
  Pg.unicodeSlug (str "Hello-World_2.0~x") = str "Hello-World_2.0~x".
Proof.
  apply (@unicodeSlug_keeps_slugs UnicodeExcerpt.normalizeNFKC
           UnicodeExcerpt.isL UnicodeExcerpt.isN);
    vm_compute; reflexivity.
Defined.

(** [isEmptyOrHyphens] answers [true] for [undefined] and [null], and for a
    string exactly when each of its characters is white space or a hyphen:
    not only for the empty string and runs of hyphens. *)
Theorem isEmptyOrHyphens_iff (s : option jsstring) :
  isEmptyOrHyphens s = true <->
  match s with
  | None => True
  | Some x => forall c, In c x -> isWhiteSpace c = true \/ c = hyphen
  end.
Proof.
  destruct s as [x|]; [|simpl; tauto].
  rewrite isEmptyOrHyphens_blank, forallb_forall.
  split; intros H c Hc; specialize (H c Hc).
  - unfold isBlank in H. apply orb_true_iff in H as [H|H]; auto.
    right. apply isHyphen_eq. assumption.
  - unfold isBlank. destruct H as [->| ->]; [reflexivity|].
    apply orb_true_r.
Qed.

Lemma isEmptyOrHyphens_iff_witness :
  isEmptyOrHyphens (Some (str " - -")) = true
  /\ isEmptyOrHyphens (Some (str "-a-")) = false.
Proof.
  split.
  - apply (proj2 (isEmptyOrHyphens_iff (Some (str " - -")))).
    intros c Hc. simpl in Hc.
    destruct Hc as [<-|[<-|[<-|[<-|[]]]]]; auto.
  - reflexivity.
Defined.

(** ** [toSlug] of the second variant *)



(** ** [create] *)

(** What [ensureUniqueSlug] returns is in no row. *)
Lemma resolved_free base t :
  existSlug (if existSlug base t
             then ensureUniqueSlug_loop t base (length t) 2
             else base) t = false.
Proof.
  destruct (existSlug base t) eqn:E; [|assumption].
  destruct (ensureUniqueSlug_loop_least t base E) as (i & _ & -> & Hfree & _).
  assumption.
Qed.

Lemma resolved_nonempty base t :
  base <> [] ->
  (if existSlug base t
   then ensureUniqueSlug_loop t base (length t) 2
   else base) <> [].
Proof.
  intros Hb. destruct (existSlug base t) eqn:E; [|assumption].
  destruct (ensureUniqueSlug_loop_least t base E) as (i & _ & -> & _).
  unfold candidate. destruct base; [contradiction | discriminate].
Qed.

Lemma findOneBySlug_none s t : findOneBySlug s t = None -> existSlug s t = false.
Proof.
  unfold findOneBySlug, existSlug.
  destruct (find _ t) as [r|] eqn:E; [discriminate|]. intros _.
  destruct (existsb _ t) eqn:Ex; [|reflexivity].
  apply existsb_exists in Ex as (r & Hr & Hs).
  apply (find_none _ _ E) in Hr. congruence.
Qed.

Lemma find_app_none {A} (f : A -> bool) l l' :
  find f l = None -> find f (l ++ l') = find f l'.
Proof.
  induction l as [|x l IH]; simpl; [reflexivity|].
  destruct (f x); [discriminate | exact IH].
Qed.

(** The slug of a node [create] has made: in no row before, and in the first
    variant not empty. *)
Lemma create_slug_inv
    (nfkc : jsstring -> jsstring) (isL isN : codepoint -> bool)
    (lower : jsstring -> jsstring) (sv : list Row -> Row -> option string)
    (v : ServiceVariant) dto uuid st m st' :
  createOf nfkc isL isN lower sv v dto uuid st = (Ok m, st') ->
  existSlug (slug m) (rows st) = false /\ (v = V1 -> slug m <> []).
Proof.
  destruct v; simpl; intros H.
  - unfold create in H. cbv zeta in H.
    unfold bind at 1 in H. rewrite ensureUniqueSlug_run in H.
    unfold bind at 1 in H.
    destruct (lookupParent _ st) as [[parent|err] st1] eqn:Hp;
      [|discriminate].
    apply lookupParent_ok in Hp as [-> _].
    unfold bind in H. rewrite assignOrder_run in H.
    apply saveOrConflict_ok, save_insert in H as [-> _]; [|reflexivity].
    simpl. split; [apply resolved_free|].
    intros _. apply resolved_nonempty.
    destruct (isEmpty (unicodeSlug nfkc isL isN _)) eqn:E.
    + discriminate.
    + intros Hnil. rewrite Hnil in E. discriminate.
  - unfold create2 in H. cbv zeta in H.
    unfold bind at 1, query at 1 in H.
    destruct (findOneBySlug _ _) eqn:Hslug; [discriminate|].
    apply findOneBySlug_none in Hslug.
    unfold bind at 1 in H.
    destruct (lookupParent _ st) as [[parent|err] st1] eqn:Hp;
      [|discriminate].
    apply lookupParent_ok in Hp as [-> _].
    unfold transaction, bind in H. rewrite assignOrder_run in H.
    match type of H with
    | match ?c with _ => _ end = _ => destruct c as [[a|err] st2] eqn:Hs
    end; [|discriminate].
    injection H as <- <-.
    apply saveOrConflict_ok, save_insert in Hs as [-> _]; [|reflexivity].
    simpl. split; [assumption | discriminate].
Qed.

(** [create], in either variant, never stores a slug that a row already has,
    whatever the database enforces: when it returns, the slug of the new
    node was in no row, and a table without duplicate slugs stays so. *)
Theorem create_slug_unused
    (nfkc : jsstring -> jsstring) (isL isN : codepoint -> bool)
    (lower : jsstring -> jsstring) (sv : list Row -> Row -> option string)
    (v : ServiceVariant) (dto : CreateMenuDto.t) (uuid : jsstring)
    (st : Store) (m : Menu) (st' : Store) :
  createOf nfkc isL isN lower sv v dto uuid st = (Ok m, st') ->
  existSlug (slug m) (rows st) = false
  /\ (NoDup (map row_slug (rows st)) -> NoDup (map row_slug (rows st'))).
Proof.
  intros H. destruct (create_slug_inv _ _ _ _ _ _ _ _ _ H) as [Hfree _].
  split; [assumption|].
  assert (Hc : create nfkc isL isN sv dto uuid st = (Ok m, st')
               \/ create2 lower sv dto st = (Ok m, st'))
    by (destruct v; [left | right]; exact H).
  apply create_inv in Hc as (s0 & parent & Hm & Hrows).
  cbv zeta in Hm, Hrows. rewrite Hrows, map_app. simpl.
  assert (Hs : slug m = s0) by (rewrite Hm; reflexivity).
  rewrite <- Hs. intros Hnd.
  apply NoDup_rev in Hnd. rewrite <- (rev_involutive (_ ++ _)).
  apply NoDup_rev. rewrite rev_app_distr. simpl.
  constructor; [|assumption].
  rewrite <- in_rev. intros Hin. apply existSlug_In in Hin. congruence.
Qed.

Lemma create_slug_unused_witness :
  existSlug (slug Sample.createdE) (rows Pg.abcd) = false
  /\ NoDup (map row_slug (rows Sample.afterE)).
Proof.
  assert (E : createOf UnicodeExcerpt.normalizeNFKC UnicodeExcerpt.isL
                UnicodeExcerpt.isN UnicodeExcerpt.toLowerCase
                Schema.save_violation V1 Sample.createE [] Pg.abcd =
              (Ok Sample.createdE, Sample.afterE))
    by (vm_compute; reflexivity).
  destruct (@create_slug_unused _ _ _ _ _ _ _ _ _ _ _ E) as [Hfree Hnd].
  split; [exact Hfree|]. apply Hnd.
  repeat (constructor; [simpl; intuition discriminate|]). constructor.
Defined.

(** The first variant never stores an empty slug: a request whose slug and
    name both normalize to nothing is given ["menu-"] and eight characters
    of a fresh UUID. *)
Theorem create_slug_nonempty
    (nfkc : jsstring -> jsstring) (isL isN : codepoint -> bool)
    (sv : list Row -> Row -> option string)
    (dto : CreateMenuDto.t) (uuid : jsstring)
    (st : Store) (m : Menu) (st' : Store) :
  create nfkc isL isN sv dto uuid st = (Ok m, st') ->
  slug m <> []
  /\ exists r, rows st' = rows st ++ [r] /\ row_slug r = slug m.
Proof.
  intros H.
  destruct (@create_slug_inv nfkc isL isN (fun x => x) sv V1 dto uuid st m st' H)
    as [_ Hne].
  split; [apply Hne; reflexivity|].
  apply (@or_introl _ (create2 (fun x => x) sv dto st = (Ok m, st'))) in H.
  apply create_inv in H as (s0 & parent & Hm & Hrows).
  cbv zeta in Hm, Hrows. eexists. split; [exact Hrows|].
  rewrite Hm. reflexivity.
Qed.

Lemma create_slug_nonempty_witness :
  Pg.create (CreateMenuDto.mk (str "!!!") (Some (str "---")) None None None)
            (str "0123456789abcdef") Pg.abcd =
  (Ok (mkMenu (Some 5%Z) (str "!!!") (str "menu-01234567") 6 true
              (Loaded None) NotLoaded),
   mkStore (rows Pg.abcd ++
            [mkRow 5 (str "!!!") (str "menu-01234567") 6 true None]) 5)
  /\ str "menu-01234567" <> [].
Proof.
  assert (E : create UnicodeExcerpt.normalizeNFKC UnicodeExcerpt.isL
                UnicodeExcerpt.isN Schema.save_violation
                (CreateMenuDto.mk (str "!!!") (Some (str "---")) None None None)
                (str "0123456789abcdef") Pg.abcd =
              (Ok (mkMenu (Some 5%Z) (str "!!!") (str "menu-01234567") 6 true
                          (Loaded None) NotLoaded),
               mkStore (rows Pg.abcd ++
                        [mkRow 5 (str "!!!") (str "menu-01234567") 6 true None])
                       5))
    by (vm_compute; reflexivity).
  split; [exact E|].
  exact (proj1 (@create_slug_nonempty _ _ _ _ _ _ _ _ _ E)).
Defined.

(** The errors of [create].  The service itself raises only NotFound for a
    [parentId] that names no node (and, in the second variant, the conflict
    for a slug in use), and then nothing was written and no id drawn; every
    other failure is the database refusing the insert, which reaches the
    caller as the conflict "Duplicate slug or order for this parent" when
    its SQLSTATE is 23505 and unchanged otherwise. *)
Theorem create_errors
    (nfkc : jsstring -> jsstring) (isL isN : codepoint -> bool)
    (lower : jsstring -> jsstring) (sv : list Row -> Row -> option string)
    (v : ServiceVariant) (dto : CreateMenuDto.t) (uuid : jsstring)
    (st : Store) (e : Exception) (st' : Store) :
  createOf nfkc isL isN lower sv v dto uuid st = (Err e, st') ->
  (v = V2 /\ e = BadRequestException "Slug already exists" /\ st' = st)
  \/ (e = NotFoundException "Parent not found" /\ st' = st
      /\ exists p, CreateMenuDto.parentId dto = Some p /\ p <> 0%Z
                   /\ findOneById p (rows st) = None)
  \/ (exists r code,
        sv (rows st) r = Some code
        /\ ((code = "23505"%string
             /\ e = BadRequestException
                      "Duplicate slug or order for this parent")
            \/ (code <> "23505"%string /\ e = QueryFailedError code))).
Proof.
  assert (Hparent : forall pid r s1,
            lookupParent pid st = (Err r, s1) ->
            r = NotFoundException "Parent not found" /\ s1 = st
            /\ exists p, pid = Some p /\ p <> 0%Z
                         /\ findOneById p (rows st) = None).
  { intros pid r s1. unfold lookupParent.
    destruct pid as [p|]; [|discriminate].
    destruct (Z.eqb p 0) eqn:Hp; [discriminate|].
    unfold bind, query.
    destruct (findOneById p (rows st)) eqn:Hf; [discriminate|].
    intros [= <- <-]. repeat split. exists p.
    apply Z.eqb_neq in Hp. auto. }
  assert (Hsave : forall x r s1,
            saveOrConflict sv x st = (Err r, s1) ->
            id x = None ->
            exists row code,
              sv (rows st) row = Some code
              /\ ((code = "23505"%string
                   /\ r = BadRequestException
                            "Duplicate slug or order for this parent")
                  \/ (code <> "23505"%string /\ r = QueryFailedError code))).
  { intros x r s1. unfold saveOrConflict, try_catch, save.
    intros Hs Hid. rewrite Hid in Hs.
    match type of Hs with
    | context [sv (rows st) ?row] =>
        destruct (sv (rows st) row) as [code|] eqn:Hv; [exists row, code|]
    end; [|discriminate].
    split; [assumption|]. simpl in Hs.
    destruct (String.eqb code "23505") eqn:Hc.
    - left. apply String.eqb_eq in Hc. injection Hs as <- _. auto.
    - right. apply String.eqb_neq in Hc. injection Hs as <- _. auto. }
  destruct v; simpl; intros H.
  - unfold create in H. cbv zeta in H.
    unfold bind at 1 in H. rewrite ensureUniqueSlug_run in H.
    unfold bind at 1 in H.
    destruct (lookupParent _ st) as [[parent|err] st1] eqn:Hp.
    + apply lookupParent_ok in Hp as [-> _].
      unfold bind in H. rewrite assignOrder_run in H.
      right. right. exact (Hsave _ _ _ H eq_refl).
    + injection H as <- <-. right. left. exact (Hparent _ _ _ Hp).
  - unfold create2 in H. cbv zeta in H.
    unfold bind at 1, query at 1 in H.
    destruct (findOneBySlug _ _).
    { injection H as <- <-. left. auto. }
    unfold bind at 1 in H.
    destruct (lookupParent _ st) as [[parent|err] st1] eqn:Hp.
    + apply lookupParent_ok in Hp as [-> _].
      unfold transaction, bind in H. rewrite assignOrder_run in H.
      match type of H with
      | match ?c with _ => _ end = _ => destruct c as [[a|err] st2] eqn:Hs
      end; [discriminate|].
      injection H as <- _. right. right. exact (Hsave _ _ _ Hs eq_refl).
    + injection H as <- <-. right. left. exact (Hparent _ _ _ Hp).
Qed.

Lemma create_errors_witness :
  Pg.create Sample.createUnder99 [] Pg.abcd =
  (Err (NotFoundException "Parent not found"), Pg.abcd)
  /\ findOneById 99 (rows Pg.abcd) = None.
Proof.
  assert (E : createOf UnicodeExcerpt.normalizeNFKC UnicodeExcerpt.isL
                UnicodeExcerpt.isN UnicodeExcerpt.toLowerCase
                Schema.save_violation V1 Sample.createUnder99 [] Pg.abcd =
              (Err (NotFoundException "Parent not found"), Pg.abcd))
    by (vm_compute; reflexivity).
  split; [exact E|].
  destruct (@create_errors _ _ _ _ _ _ _ _ _ _ _ E)
    as [(Hv & _)|[(_ & _ & p & Hp & _ & Hnone)|(r & code & _ & [[_ He]|[_ He]])]];
    try discriminate.
  injection Hp as <-. exact Hnone.
Defined.

(** A node that [create] has made can be read back: when the id the sequence
    yields is in no row, [findOne] of the id [create] returned gives the
    node's name (the trimmed name of the request), slug, order and
    [isActive]. *)
Theorem create_then_findOne
    (nfkc : jsstring -> jsstring) (isL isN : codepoint -> bool)
    (lower : jsstring -> jsstring) (sv : list Row -> Row -> option string)
    (v : ServiceVariant) (dto : CreateMenuDto.t) (uuid : jsstring)
    (st : Store) (m : Menu) (st' : Store) :
  rowById (seq st + 1) (rows st) = None ->
  createOf nfkc isL isN lower sv v dto uuid st = (Ok m, st') ->
  exists i m',
    id m = Some i /\ findOne i st' = (Ok m', st')
    /\ id m' = Some i
    /\ name m' = name m /\ name m = trim (CreateMenuDto.name dto)
    /\ slug m' = slug m /\ order m' = order m /\ isActive m' = isActive m.
Proof.
  intros Hfresh H.
  assert (Hc : create nfkc isL isN sv dto uuid st = (Ok m, st')
               \/ create2 lower sv dto st = (Ok m, st'))
    by (destruct v; [left | right]; exact H).
  apply create_inv in Hc as (s0 & parent & Hm & Hrows).
  cbv zeta in Hm, Hrows.
  exists (seq st + 1)%Z. eexists. split; [rewrite Hm; reflexivity|].
  split.
  - unfold findOne, bind, query, findOneById. rewrite Hrows.
    unfold rowById in Hfresh. rewrite (find_app_none _ _ _ Hfresh).
    simpl. rewrite Z.eqb_refl. reflexivity.
  - rewrite Hm. simpl. repeat split.
Qed.

Lemma create_then_findOne_witness :
  rowById 5 (rows Pg.abcd) = None
  /\ exists m', findOne 5 Sample.afterE = (Ok m', Sample.afterE)
                /\ name m' = str "E" /\ slug m' = str "E".
Proof.
  split; [reflexivity|].
  assert (E : createOf UnicodeExcerpt.normalizeNFKC UnicodeExcerpt.isL
                UnicodeExcerpt.isN UnicodeExcerpt.toLowerCase
                Schema.save_violation V1 Sample.createE [] Pg.abcd =
              (Ok Sample.createdE, Sample.afterE))
    by (vm_compute; reflexivity).
  destruct (@create_then_findOne _ _ _ _ _ _ _ _ Pg.abcd _ _ eq_refl E)
    as (i & m' & Hi & Hf & _ & Hn & _ & Hs & _).
  injection Hi as <-. exists m'. split; [exact Hf|].
  split; [rewrite Hn | rewrite Hs]; reflexivity.
Defined.

(** ** [update] *)

Lemma rowById_findOneById i t :
  findOneById i t = option_map entity_of_row (rowById i t).
Proof. reflexivity. Qed.

Lemma findOne_run i st :
  findOne i st =
  match rowById i (rows st) with
  | Some r => (Ok (entity_of_row r), st)
  | None => (Err (NotFoundException "Menu not found"), st)
  end.
Proof.
  unfold findOne, bind, query. rewrite rowById_findOneById.
  destruct (rowById i (rows st)); reflexivity.
Qed.


(** [reslug] changes the slug only, and only into a slug no row has. *)
Lemma reslug_fields nfkc isL isN source uuid menu st :
  exists menu',
    reslug nfkc isL isN source uuid menu st = (Ok menu', st)
    /\ id menu' = id menu /\ name menu' = name menu
    /\ order menu' = order menu /\ isActive menu' = isActive menu
    /\ parent menu' = parent menu
    /\ (slug menu' = slug menu \/ existSlug (slug menu') (rows st) = false).
Proof.
  unfold reslug. cbv zeta.
  destruct (negb (streq _ _)).
  - unfold bind. rewrite ensureUniqueSlug_run. eexists.
    split; [reflexivity|]. simpl. repeat split. right. apply resolved_free.
  - eexists. split; [reflexivity|]. repeat split. left. reflexivity.
Qed.

(** What step 3 leaves when it does not throw. *)
Lemma updateParent_inv i pid menu st menu' st' :
  updateParent i pid menu st = (Ok menu', st') ->
  st' = st
  /\ id menu' = id menu /\ name menu' = name menu /\ slug menu' = slug menu
  /\ order menu' = order menu /\ isActive menu' = isActive menu
  /\ parent menu' = match pid with
                    | Some q => Loaded q
                    | None => parent menu
                    end.
Proof.
  unfold updateParent. destruct pid as [[p|]|].
  - destruct (Z.eqb p i); [discriminate|].
    unfold bind, query.
    destruct (findOneById p (rows st)) as [np|] eqn:Hnp; [|discriminate].
    destruct (existsb _ _); [discriminate|].
    intros [= <- <-]. rewrite (findOneById_id _ _ Hnp). repeat split.
  - intros [= <- <-]. repeat split.
  - intros [= <- <-]. repeat split.
Qed.

Lemma save_existing sv e i old st m st' :
  id e = Some i -> rowById i (rows st) = Some old ->
  save sv e st = (Ok m, st') ->
  m = e
  /\ st' = mkStore
             (replaceRow
                (mkRow i (name e) (slug e) (order e) (isActive e)
                       (parentColumn e (row_parentId old)))
                (rows st))
             (seq st).
Proof.
  intros Hid Hold. unfold save. rewrite Hid.
  fold (rowById i (rows st)). rewrite Hold.
  destruct (sv _ _); [discriminate|].
  intros [= <- <-]. split; reflexivity.
Qed.

Lemma applyOpt_fields (o : option Z) (a : option bool) x :
  let y := applyOpt a set_isActive (applyOpt o set_order x) in
  id y = id x /\ name y = name x /\ slug y = slug x /\ parent y = parent x
  /\ order y = match o with Some v => v | None => order x end
  /\ isActive y = match a with Some v => v | None => isActive x end.
Proof. destruct o, a; simpl; repeat split. Qed.

(** A successful [update], of either variant, has replaced the row of its
    node by the entity it returns: the order, the [isActive] flag and the
    parent are those of the request where it has them and the stored ones
    where it has not; the name is the trimmed name of the request, or the
    stored one; the slug of the first variant is the stored one or one that
    no row had. *)
Lemma update_inv
    (nfkc : jsstring -> jsstring) (isL isN : codepoint -> bool)
    (lower : jsstring -> jsstring) (sv : list Row -> Row -> option string)
    (v : ServiceVariant) i dto uuid st m st' :
  updateOf nfkc isL isN lower sv v i dto uuid st = (Ok m, st') ->
  exists old,
    rowById i (rows st) = Some old
    /\ id m = Some i
    /\ st' = mkStore
               (replaceRow
                  (mkRow i (name m) (slug m) (order m) (isActive m)
                         match UpdateMenuDto.parentId dto with
                         | Some q => q
                         | None => row_parentId old
                         end)
                  (rows st))
               (seq st)
    /\ order m = match UpdateMenuDto.order dto with
                 | Some o => o
                 | None => row_order old
                 end
    /\ isActive m = match UpdateMenuDto.isActive dto with
                    | Some b => b
                    | None => row_isActive old
                    end
    /\ match v with
       | V1 =>
           name m = match UpdateMenuDto.name dto with
                    | Some n => trim n
                    | None => row_name old
                    end
           /\ (slug m = row_slug old
               \/ existSlug (slug m) (rows st) = false)
           /\ (UpdateMenuDto.slug dto = None ->
               snd (updateName (UpdateMenuDto.name dto) (entity_of_row old))
               = false ->
               slug m = row_slug old)
       | V2 =>
           name m = match UpdateMenuDto.name dto with
                    | Some n => if isEmpty n then row_name old else trim n
                    | None => row_name old
                    end
           /\ (UpdateMenuDto.name dto = None ->
               UpdateMenuDto.slug dto = None -> slug m = row_slug old)
       end.
Proof.
  intros H.
  assert (Hold : exists old, rowById i (rows st) = Some old).
  { destruct (rowById i (rows st)) as [old|] eqn:E; [eauto|].
    exfalso. destruct v; simpl in H.
    - unfold update in H. unfold bind at 1 in H.
      rewrite findOne_run, E in H. discriminate.
    - unfold update2 in H. cbv zeta in H. unfold bind at 1 in H.
      rewrite findOne_run, E in H. discriminate. }
  destruct Hold as [old Hold]. exists old. split; [assumption|].
  destruct v; simpl in H.
  - unfold update in H. unfold bind at 1 in H.
    rewrite findOne_run, Hold in H.
    destruct (updateName (UpdateMenuDto.name dto) (entity_of_row old))
      as [menu nameChanged] eqn:Hname.
    assert (Hmenu : id menu = Some i /\ order menu = row_order old
                    /\ isActive menu = row_isActive old
                    /\ parent menu = NotLoaded /\ slug menu = row_slug old
                    /\ name menu = match UpdateMenuDto.name dto with
                                   | Some n => trim n
                                   | None => row_name old
                                   end).
    { unfold rowById in Hold. apply find_some in Hold as [_ Hid].
      apply Z.eqb_eq in Hid. unfold updateName in Hname.
      destruct (UpdateMenuDto.name dto); injection Hname as <- _;
        simpl; rewrite Hid; repeat split. }
    destruct Hmenu as (Hid & Ho & Ha & Hp & Hs & Hn).
    unfold bind at 1 in H.
    assert (Hstep2 : exists menu1 s1,
               match UpdateMenuDto.slug dto with
               | Some s0 =>
                   reslug nfkc isL isN
                     (if negb (isEmptyOrHyphens (Some (trim s0)))
                      then trim s0
                      else match UpdateMenuDto.name dto with
                           | Some n => trim n
                           | None => name menu
                           end) uuid menu
               | None =>
                   if nameChanged
                   then reslug nfkc isL isN (name menu) uuid menu
                   else ret menu
               end st = (Ok menu1, s1)
               /\ s1 = st
               /\ id menu1 = id menu /\ name menu1 = name menu
               /\ order menu1 = order menu /\ isActive menu1 = isActive menu
               /\ parent menu1 = parent menu
               /\ (slug menu1 = slug menu
                   \/ existSlug (slug menu1) (rows st) = false)
               /\ (UpdateMenuDto.slug dto = None -> nameChanged = false ->
                   slug menu1 = slug menu)).
    { destruct (UpdateMenuDto.slug dto) as [s0|].
      - match goal with
        | |- context [reslug nfkc isL isN ?src uuid menu st] =>
            destruct (reslug_fields nfkc isL isN src uuid menu st)
              as (menu' & -> & F1 & F2 & F3 & F4 & F5 & F6)
        end.
        exists menu', st. repeat split; auto. discriminate.
      - destruct nameChanged.
        + destruct (reslug_fields nfkc isL isN (name menu) uuid menu st)
            as (menu' & -> & F1 & F2 & F3 & F4 & F5 & F6).
          exists menu', st. repeat split; auto. discriminate.
        + exists menu, st. repeat split; auto. }
    destruct Hstep2 as (menu1 & s1 & Hrun & -> & G1 & G2 & G3 & G4 & G5 & G6 & G7).
    rewrite Hrun in H. clear Hrun.
    unfold bind at 1 in H.
    destruct (updateParent i (UpdateMenuDto.parentId dto) menu1 st)
      as [[menu2|err] s2] eqn:Hpar; [|discriminate].
    apply updateParent_inv in Hpar as (-> & P1 & P2 & P3 & P4 & P5 & P6).
    apply saveOrConflict_ok in H.
    destruct (applyOpt_fields (UpdateMenuDto.order dto)
                (UpdateMenuDto.isActive dto) menu2)
      as (A1 & A2 & A3 & A4 & A5 & A6).
    apply (@save_existing sv _ i old) in H as [-> ->]; [|congruence|assumption].
    rewrite A1, A2, A3, A5, A6. unfold parentColumn. rewrite A4, P6.
    rewrite P1, P2, P3, P4, P5, G1, G2, G3, G4, Hid, Ho, Ha, Hn.
    split; [reflexivity|]. split.
    { f_equal. f_equal. f_equal.
      destruct (UpdateMenuDto.parentId dto); [reflexivity|].
      rewrite G5, Hp. reflexivity. }
    split; [reflexivity|]. split; [reflexivity|].
    split; [reflexivity|]. rewrite <- Hs. split; [assumption|].
    intros Hnone Hflag. apply G7; assumption.
  - unfold update2 in H. cbv zeta in H. unfold bind at 1 in H.
    rewrite findOne_run, Hold in H.
    set (menu := match UpdateMenuDto.name dto with
                 | Some n => if isEmpty n then entity_of_row old
                             else set_slug (set_name (entity_of_row old) (trim n))
                                           (toSlug lower n)
                 | None => entity_of_row old
                 end) in H.
    assert (Hmenu : id menu = Some i /\ order menu = row_order old
                    /\ isActive menu = row_isActive old
                    /\ parent menu = NotLoaded
                    /\ name menu = match UpdateMenuDto.name dto with
                                   | Some n => if isEmpty n then row_name old
                                               else trim n
                                   | None => row_name old
                                   end
                    /\ (UpdateMenuDto.name dto = None ->
                        slug menu = row_slug old)).
    { unfold rowById in Hold. apply find_some in Hold as [_ Hid].
      apply Z.eqb_eq in Hid. subst menu.
      destruct (UpdateMenuDto.name dto) as [n|];
        [destruct (isEmpty n)|]; simpl; rewrite Hid; repeat split;
        discriminate. }
    destruct Hmenu as (Hid & Ho & Ha & Hp & Hn & Hs).
    unfold bind at 1 in H.
    assert (Hstep2 : exists menu1,
               match UpdateMenuDto.slug dto with
               | Some s0 =>
                   if isEmpty s0 then ret menu
                   else
                     dupe <- query (findOneBySlug (trim s0)) ;;
                     match dupe with
                     | Some d =>
                         if negb (idEq (id d) (Some i))
                         then throw (BadRequestException "Slug already exists")
                         else ret (set_slug menu (trim s0))
                     | None => ret (set_slug menu (trim s0))
                     end
               | None => ret menu
               end st = (Ok menu1, st)
               /\ id menu1 = id menu /\ name menu1 = name menu
               /\ order menu1 = order menu /\ isActive menu1 = isActive menu
               /\ parent menu1 = parent menu
               /\ (UpdateMenuDto.slug dto = None -> slug menu1 = slug menu)).
    { destruct (UpdateMenuDto.slug dto) as [s0|].
      - destruct (isEmpty s0).
        + exists menu. repeat split; try discriminate.
        + unfold bind at 1, query at 1 in H. unfold bind, query.
          destruct (findOneBySlug (trim s0) (rows st)) as [d|].
          * destruct (negb (idEq (id d) (Some i))); [discriminate|].
            eexists. split; [reflexivity|]. repeat split; try discriminate.
          * eexists. split; [reflexivity|]. repeat split; try discriminate.
      - exists menu. repeat split. }
    destruct Hstep2 as (menu1 & Hrun & G1 & G2 & G3 & G4 & G5 & G6).
    rewrite Hrun in H. clear Hrun.
    destruct (applyOpt_fields (UpdateMenuDto.order dto)
                (UpdateMenuDto.isActive dto) menu1)
      as (A1 & A2 & A3 & A4 & A5 & A6).
    unfold bind at 1 in H.
    match type of H with
    | context [updateParent i _ ?x st] =>
        destruct (updateParent i (UpdateMenuDto.parentId dto) x st)
          as [[menu2|err] s2] eqn:Hpar; [|discriminate]
    end.
    apply updateParent_inv in Hpar as (-> & P1 & P2 & P3 & P4 & P5 & P6).
    apply (@save_existing sv _ i old) in H as [-> ->]; [|congruence|assumption].
    unfold parentColumn. rewrite P6, P1, P2, P3, P4, P5.
    rewrite A1, A2, A3, A4, A5, A6, G1, G2, G3, G4, G5, Hid, Ho, Ha, Hn.
    split; [reflexivity|]. split.
    { f_equal. f_equal. f_equal.
      destruct (UpdateMenuDto.parentId dto); [reflexivity|].
      rewrite Hp. reflexivity. }
    split; [reflexivity|]. split; [reflexivity|].
    split; [reflexivity|].
    intros Hnn Hns. rewrite (G6 Hns). apply Hs. assumption.
Qed.




(** A field the update request does not supply keeps its stored value, in
    either variant: order, [isActive], parent and name each on its own, and
    the slug when the request has neither a slug nor a name. *)
Theorem update_keeps_unsupplied
    (nfkc : jsstring -> jsstring) (isL isN : codepoint -> bool)
    (lower : jsstring -> jsstring) (sv : list Row -> Row -> option string)
    (v : ServiceVariant) (i : Z) (dto : UpdateMenuDto.t) (uuid : jsstring)
    (st : Store) (m : Menu) (st' : Store) :
  updateOf nfkc isL isN lower sv v i dto uuid st = (Ok m, st') ->
  exists old new,
    rowById i (rows st) = Some old /\ rowById i (rows st') = Some new
    /\ (UpdateMenuDto.order dto = None -> row_order new = row_order old)
    /\ (UpdateMenuDto.isActive dto = None ->
        row_isActive new = row_isActive old)
    /\ (UpdateMenuDto.parentId dto = None ->
        row_parentId new = row_parentId old)
    /\ (UpdateMenuDto.name dto = None -> row_name new = row_name old)
    /\ (UpdateMenuDto.name dto = None -> UpdateMenuDto.slug dto = None ->
        row_slug new = row_slug old).
Proof.
  intros H.
  apply update_inv in H as (old & Hold & Hid & -> & Ho & Ha & Hv).
  exists old. eexists. split; [assumption|]. split.
  { simpl. apply (@rowById_replaceRow (mkRow i _ _ _ _ _) (rows st) old).
    exact Hold. }
  simpl. split; [intros E; rewrite Ho, E; reflexivity|].
  split; [intros E; rewrite Ha, E; reflexivity|].
  split; [intros E; rewrite E; reflexivity|].
  destruct v.
  - destruct Hv as (Hn & _ & Hs). split.
    + intros E. rewrite Hn, E. reflexivity.
    + intros En Es. apply Hs; [assumption|]. rewrite En. reflexivity.
  - destruct Hv as (Hn & Hs). split.
    + intros E. rewrite Hn, E. reflexivity.
    + assumption.
Qed.

Lemma update_keeps_unsupplied_witness :
  exists new,
    rowById 3 (rows Sample.afterMoveC) = Some new
    /\ row_order new = row_order Pg.C /\ row_name new = row_name Pg.C
    /\ row_slug new = row_slug Pg.C.
Proof.
  assert (E : updateOf UnicodeExcerpt.normalizeNFKC UnicodeExcerpt.isL
                UnicodeExcerpt.isN UnicodeExcerpt.toLowerCase
                Schema.save_violation V1 3 (Sample.moveTo 1) [] Pg.abcd =
              (Ok Sample.movedC, Sample.afterMoveC))
    by (vm_compute; reflexivity).
  destruct (@update_keeps_unsupplied _ _ _ _ _ _ _ _ _ _ _ _ E)
    as (old & new & Hold & Hnew & Ho & _ & _ & Hn & Hs).
  injection Hold as <-. exists new. split; [exact Hnew|].
  split; [apply Ho; reflexivity|].
  split; [apply Hn; reflexivity | apply Hs; reflexivity].
Defined.

(** The order, the [isActive] flag and the parent an update request supplies
    are stored as given, in either variant; [parentId: null] makes the node
    a root. *)
Theorem update_stores_supplied
    (nfkc : jsstring -> jsstring) (isL isN : codepoint -> bool)
    (lower : jsstring -> jsstring) (sv : list Row -> Row -> option string)
    (v : ServiceVariant) (i : Z) (dto : UpdateMenuDto.t) (uuid : jsstring)
    (st : Store) (m : Menu) (st' : Store) :
  updateOf nfkc isL isN lower sv v i dto uuid st = (Ok m, st') ->
  exists new,
    rowById i (rows st') = Some new
    /\ (forall o, UpdateMenuDto.order dto = Some o -> row_order new = o)
    /\ (forall b, UpdateMenuDto.isActive dto = Some b -> row_isActive new = b)
    /\ (UpdateMenuDto.parentId dto = Some None -> row_parentId new = None)
    /\ (forall p, UpdateMenuDto.parentId dto = Some (Some p) ->
          row_parentId new = Some p).
Proof.
  intros H.
  apply update_inv in H as (old & Hold & Hid & -> & Ho & Ha & _).
  eexists. split.
  { simpl. apply (@rowById_replaceRow (mkRow i _ _ _ _ _) (rows st) old).
    exact Hold. }
  simpl. split; [intros o E; rewrite Ho, E; reflexivity|].
  split; [intros b E; rewrite Ha, E; reflexivity|].
  split; [intros E; rewrite E; reflexivity|].
  intros p E. rewrite E. reflexivity.
Qed.

Lemma update_stores_supplied_witness :
  exists new,
    rowById 3 (rows Sample.afterMoveC) = Some new
    /\ row_parentId new = Some 1%Z.
Proof.
  assert (E : updateOf UnicodeExcerpt.normalizeNFKC UnicodeExcerpt.isL
                UnicodeExcerpt.isN UnicodeExcerpt.toLowerCase
                Schema.save_violation V1 3 (Sample.moveTo 1) [] Pg.abcd =
              (Ok Sample.movedC, Sample.afterMoveC))
    by (vm_compute; reflexivity).
  destruct (@update_stores_supplied _ _ _ _ _ _ _ _ _ _ _ _ E)
    as (new & Hnew & _ & _ & _ & Hp).
  exists new. split; [exact Hnew|]. apply Hp. reflexivity.
Defined.

Lemma updateParent_ok_inv i p menu st menu' st' :
  updateParent i (Some (Some p)) menu st = (Ok menu', st') ->
  p <> i
  /\ findOneById p (rows st) <> None
  /\ ~ hasId p (findDescendants menu (rows st)).
Proof.
  unfold updateParent. destruct (Z.eqb p i) eqn:Hp; [discriminate|].
  apply Z.eqb_neq in Hp. unfold bind, query.
  destruct (findOneById p (rows st)) as [np|] eqn:Hnp; [|discriminate].
  rewrite (findOneById_id _ _ Hnp).
  destruct (existsb _ _) eqn:Ex; [discriminate|]. intros _.
  split; [assumption|]. split; [discriminate|].
  intros Hd. apply existsb_hasId in Hd. congruence.
Qed.

(** An [update] that moves a node and returns has passed the guard, in
    either variant: the new parent is not the node itself, is a stored node,
    and is not in the descendant set of the node. *)
Theorem update_reparent_safe
    (nfkc : jsstring -> jsstring) (isL isN : codepoint -> bool)
    (lower : jsstring -> jsstring) (sv : list Row -> Row -> option string)
    (v : ServiceVariant) (i : Z) (dto : UpdateMenuDto.t) (uuid : jsstring)
    (st : Store) (m : Menu) (st' : Store) (p : Z) :
  updateOf nfkc isL isN lower sv v i dto uuid st = (Ok m, st') ->
  UpdateMenuDto.parentId dto = Some (Some p) ->
  exists old,
    rowById i (rows st) = Some old
    /\ p <> i
    /\ rowById p (rows st) <> None
    /\ ~ hasId p (findDescendants (entity_of_row old) (rows st)).
Proof.
  intros H Hpid. pose proof H as H0.
  apply update_inv in H0 as (old & Hold & _).
  exists old. split; [assumption|].
  assert (Hfind : findOneById i (rows st) = Some (entity_of_row old))
    by (rewrite rowById_findOneById, Hold; reflexivity).
  assert (Hrun : exists menu1 k,
             id menu1 = Some i
             /\ updateOf nfkc isL isN lower sv v i dto uuid st =
                bind (updateParent i (Some (Some p)) menu1) k st).
  { destruct v; simpl.
    - destruct (update_prefix nfkc isL isN sv i dto uuid st Hfind)
        as (menu1 & Hid & ->).
      rewrite Hpid. eexists menu1, _. split; [assumption | reflexivity].
    - destruct (slugClash i dto (rows st)) eqn:Ec.
      + simpl in H. rewrite (update2_clash lower sv i dto st Hfind Ec) in H.
        discriminate.
      + destruct (update2_prefix lower sv i dto st Hfind Ec)
          as (menu1 & Hid & ->).
        rewrite Hpid. eexists menu1, _. split; [assumption | reflexivity]. }
  destruct Hrun as (menu1 & k & Hid & Hrun).
  rewrite Hrun in H. unfold bind in H.
  destruct (updateParent i (Some (Some p)) menu1 st)
    as [[menu2|err] s2] eqn:Hpar; [|discriminate].
  apply updateParent_ok_inv in Hpar as (Hne & Hex & Hd).
  split; [assumption|]. split.
  - intros Hnone. apply Hex. rewrite rowById_findOneById, Hnone. reflexivity.
  - rewrite <- (@findDescendants_ext menu1 (entity_of_row old) (rows st));
      [assumption|].
    rewrite Hid. simpl. unfold rowById in Hold.
    apply find_some in Hold as [_ Hi]. apply Z.eqb_eq in Hi. congruence.
Qed.

Lemma update_reparent_safe_witness :
  exists old,
    rowById 3 (rows Pg.abcd) = Some old
    /\ 1%Z <> 3%Z
    /\ rowById 1 (rows Pg.abcd) <> None
    /\ ~ hasId 1 (findDescendants (entity_of_row old) (rows Pg.abcd)).
Proof.
  assert (E : updateOf UnicodeExcerpt.normalizeNFKC UnicodeExcerpt.isL
                UnicodeExcerpt.isN UnicodeExcerpt.toLowerCase
                Schema.save_violation V1 3 (Sample.moveTo 1) [] Pg.abcd =
              (Ok Sample.movedC, Sample.afterMoveC))
    by (vm_compute; reflexivity).
  exact (@update_reparent_safe _ _ _ _ _ _ _ _ _ _ _ _ 1%Z E eq_refl).
Defined.

Lemma replaceRow_slug_in r t s :
  In s (map row_slug (replaceRow r t)) ->
  In s (map row_slug t) \/ s = row_slug r.
Proof.
  unfold replaceRow. induction t as [|x t IH]; simpl; [tauto|].
  destruct (Z.eqb (row_id x) (row_id r)); simpl; intros [<-|H]; auto;
    destruct (IH H); auto.
Qed.

Lemma replaceRow_absent r t :
  ~ In (row_id r) (map row_id t) -> replaceRow r t = t.
Proof.
  unfold replaceRow. induction t as [|x t IH]; simpl; [reflexivity|].
  intros H. destruct (Z.eqb (row_id x) (row_id r)) eqn:E.
  - apply Z.eqb_eq in E. tauto.
  - f_equal. apply IH. tauto.
Qed.

(** With unique ids, replacing a row by one whose slug is its own or new
    keeps the slugs unique. *)
Lemma replaceRow_slugs_NoDup r t old :
  NoDup (map row_id t) -> NoDup (map row_slug t) ->
  rowById (row_id r) t = Some old ->
  row_slug r = row_slug old \/ ~ In (row_slug r) (map row_slug t) ->
  NoDup (map row_slug (replaceRow r t)).
Proof.
  induction t as [|x t IH]; simpl; [discriminate|].
  intros Hid Hsl Hold Hs.
  inversion Hid as [|? ? Hxid Hid']; subst.
  inversion Hsl as [|? ? Hxsl Hsl']; subst.
  unfold rowById in Hold. simpl in Hold.
  destruct (Z.eqb (row_id x) (row_id r)) eqn:E.
  - injection Hold as <-. apply Z.eqb_eq in E.
    rewrite replaceRow_absent by (rewrite <- E; assumption).
    simpl. constructor; [|assumption].
    destruct Hs as [->|Hs]; [assumption|]. intros Hin. apply Hs. auto.
  - fold (rowById (row_id r) t) in Hold.
    simpl. constructor.
    + intros Hin. apply replaceRow_slug_in in Hin as [Hin|Hin]; [auto|].
      destruct Hs as [Hs|Hs].
      * apply Hxsl. rewrite Hin, Hs. apply in_map.
        unfold rowById in Hold. apply find_some in Hold as [Ho _]. exact Ho.
      * apply Hs. left. assumption.
    + apply (IH Hid' Hsl' Hold).
      destruct Hs as [Hs|Hs]; [left; assumption|].
      right. intros Hin. apply Hs. auto.
Qed.

(** [update] of the first variant never gives a node a slug that a row
    already has: the slug it stores is the node's own or was in no row, and
    a table with unique ids and unique slugs keeps its slugs unique,
    whatever the database enforces. *)
Theorem update_slug_unused
    (nfkc : jsstring -> jsstring) (isL isN : codepoint -> bool)
    (sv : list Row -> Row -> option string)
    (i : Z) (dto : UpdateMenuDto.t) (uuid : jsstring)
    (st : Store) (m : Menu) (st' : Store) :
  update nfkc isL isN sv i dto uuid st = (Ok m, st') ->
  exists old,
    rowById i (rows st) = Some old
    /\ (slug m = row_slug old \/ existSlug (slug m) (rows st) = false)
    /\ (NoDup (map row_id (rows st)) -> NoDup (map row_slug (rows st)) ->
        NoDup (map row_slug (rows st'))).
Proof.
  intros H.
  apply (@update_inv nfkc isL isN (fun x => x) sv V1) in H
    as (old & Hold & Hid & -> & _ & _ & _ & Hs & _).
  exists old. split; [assumption|]. split; [assumption|].
  intros Hids Hslugs. simpl.
  apply (@replaceRow_slugs_NoDup _ (rows st) old); try assumption.
  simpl. destruct Hs as [Hs|Hs]; [left; assumption|].
  right. intros Hin. apply existSlug_In in Hin. congruence.
Qed.

Lemma update_slug_unused_witness :
  Pg.update 4 Sample.renameTo_a [] Pg.abcd =
  (Ok Sample.renamedD, Sample.afterRenameD)
  /\ existSlug (str "a-3") (rows Pg.abcd) = false
  /\ NoDup (map row_slug (rows Sample.afterRenameD)).
Proof.
  assert (E : update UnicodeExcerpt.normalizeNFKC UnicodeExcerpt.isL
                UnicodeExcerpt.isN Schema.save_violation 4
                Sample.renameTo_a [] Pg.abcd =
              (Ok Sample.renamedD, Sample.afterRenameD))
    by (vm_compute; reflexivity).
  split; [exact E|].
  destruct (@update_slug_unused _ _ _ _ _ _ _ _ _ _ E)
    as (old & Hold & Hs & Hnd).
  injection Hold as <-.
  split.
  - destruct Hs as [Hs|Hs]; [discriminate Hs | exact Hs].
  - apply Hnd;
      repeat (constructor; [simpl; intuition discriminate|]); constructor.
Defined.

(** ** [findOne], [findTreeById] and [remove] *)

Lemma subtree_id fuel t r : id (subtree fuel t r) = Some (row_id r).
Proof. destruct fuel; reflexivity. Qed.

Lemma subtree_children fuel t r :
  exists kids, children (subtree fuel t r) = Loaded kids.
Proof. destruct fuel; eexists; reflexivity. Qed.

Lemma findTreeById_no_root i st :
  ~ (exists r, In r (rows st) /\ row_id r = i /\ row_parentId r = None) ->
  findTreeById i st = (Err (NotFoundException "Menu not found"), st).
Proof.
  intros Hno. unfold findTreeById, bind, query.
  destruct (find (fun t => idEq (id t) (Some i)) (findTrees (rows st)))
    as [root|] eqn:E; [|reflexivity].
  exfalso. apply Hno.
  apply find_some in E as [Hin Hid].
  unfold findTrees in Hin. apply in_map_iff in Hin as (r & <- & Hr).
  apply filter_In in Hr as [Hr Hroot].
  rewrite subtree_id in Hid. simpl in Hid. apply Z.eqb_eq in Hid.
  exists r. destruct (row_parentId r); [discriminate | auto].
Qed.

(** [findTreeById] answers exactly the ids of the roots: it returns a node
    with the requested id and its children loaded when a parentless row has
    that id, and throws NotFound otherwise, also for the id of a stored node
    that has a parent. *)
Theorem findTreeById_iff_root (i : Z) (st : Store) :
  ((exists r, In r (rows st) /\ row_id r = i /\ row_parentId r = None) ->
   exists m kids, findTreeById i st = (Ok m, st)
                  /\ id m = Some i /\ children m = Loaded kids)
  /\ (~ (exists r, In r (rows st) /\ row_id r = i /\ row_parentId r = None) ->
      findTreeById i st = (Err (NotFoundException "Menu not found"), st)).
Proof.
  split; [|apply findTreeById_no_root].
  intros (r & Hr & Hid & Hroot).
  unfold findTreeById, bind, query.
  destruct (find (fun t => idEq (id t) (Some i)) (findTrees (rows st)))
    as [root|] eqn:E.
  - apply find_some in E as [Hin Hi].
    unfold findTrees in Hin. apply in_map_iff in Hin as (r' & <- & Hr').
    rewrite subtree_id in Hi. simpl in Hi. apply Z.eqb_eq in Hi.
    destruct (subtree_children (length (rows st)) (rows st) r')
      as [kids Hkids].
    eexists _, kids. split; [reflexivity|].
    rewrite subtree_id, Hi. split; [reflexivity | exact Hkids].
  - exfalso.
    assert (Hin : In (subtree (length (rows st)) (rows st) r)
                     (findTrees (rows st))).
    { unfold findTrees. apply in_map. apply filter_In. split; [assumption|].
      rewrite Hroot. reflexivity. }
    apply (find_none _ _ E) in Hin.
    rewrite subtree_id, Hid in Hin. simpl in Hin.
    rewrite Z.eqb_refl in Hin. discriminate.
Qed.

Lemma findTreeById_iff_root_witness :
  (exists m kids, findTreeById 4 Pg.abcd = (Ok m, Pg.abcd)
                  /\ id m = Some 4%Z /\ children m = Loaded kids)
  /\ findTreeById 3 Pg.abcd =
     (Err (NotFoundException "Menu not found"), Pg.abcd).
Proof.
  destruct (findTreeById_iff_root 4 Pg.abcd) as [Hroot _].
  destruct (findTreeById_iff_root 3 Pg.abcd) as [_ Hnot].
  split.
  - apply Hroot. exists Pg.D. simpl. auto 10.
  - apply Hnot. intros (r & Hr & Hid & Hp). simpl in Hr.
    destruct Hr as [<-|[<-|[<-|[<-|[]]]]]; discriminate.
Defined.

(** An id that no row has is NotFound ("Menu not found") for every
    operation that takes an id, and the store is left as it was: [findOne],
    [findTreeById], [update] of both variants whatever the request, and
    [remove]. *)
Theorem missing_id_not_found
    (nfkc : jsstring -> jsstring) (isL isN : codepoint -> bool)
    (lower : jsstring -> jsstring)
    (sv : list Row -> Row -> option string)
    (rv : list Row -> Z -> option string)
    (i : Z) (st : Store) :
  rowById i (rows st) = None ->
  findOne i st = (Err (NotFoundException "Menu not found"), st)
  /\ findTreeById i st = (Err (NotFoundException "Menu not found"), st)
  /\ (forall v dto uuid,
        updateOf nfkc isL isN lower sv v i dto uuid st =
        (Err (NotFoundException "Menu not found"), st))
  /\ remove rv i st = (Err (NotFoundException "Menu not found"), st).
Proof.
  intros Hnone.
  assert (Hf : findOne i st = (Err (NotFoundException "Menu not found"), st))
    by (rewrite findOne_run, Hnone; reflexivity).
  split; [assumption|]. split; [|split].
  - apply findTreeById_no_root. intros (r & Hr & Hid & _).
    unfold rowById in Hnone. apply (find_none _ _ Hnone) in Hr.
    apply Z.eqb_neq in Hr. contradiction.
  - intros [|] dto uuid; simpl.
    + unfold update. unfold bind at 1. rewrite Hf. reflexivity.
    + unfold update2. cbv zeta. unfold bind at 1. rewrite Hf. reflexivity.
  - unfold remove. unfold bind at 1. rewrite Hf. reflexivity.
Qed.

Lemma missing_id_not_found_witness :
  rowById 99 (rows Pg.abcd) = None
  /\ Pg.update 99 Sample.blankName [] Pg.abcd =
     (Err (NotFoundException "Menu not found"), Pg.abcd)
  /\ Pg.remove 99 Pg.abcd =
     (Err (NotFoundException "Menu not found"), Pg.abcd).
Proof.
  split; [reflexivity|].
  destruct (@missing_id_not_found UnicodeExcerpt.normalizeNFKC
              UnicodeExcerpt.isL UnicodeExcerpt.isN
              UnicodeExcerpt.toLowerCase Schema.save_violation
              Schema.remove_violation 99 Pg.abcd eq_refl)
    as (_ & _ & Hu & Hr).
  split; [exact (Hu V1 Sample.blankName []) | exact Hr].
Defined.

Lemma rowById_filter_other i j t :
  j <> i ->
  rowById j (filter (fun r => negb (Z.eqb (row_id r) i)) t) = rowById j t.
Proof.
  intros Hj. unfold rowById. induction t as [|x t IH]; simpl; [reflexivity|].
  destruct (Z.eqb (row_id x) i) eqn:E; simpl.
  - apply Z.eqb_eq in E.
    assert (Z.eqb (row_id x) j = false) as -> by (apply Z.eqb_neq; congruence).
    exact IH.
  - destruct (Z.eqb (row_id x) j); [reflexivity | exact IH].
Qed.

Lemma rowById_filter_self i t :
  rowById i (filter (fun r => negb (Z.eqb (row_id r) i)) t) = None.
Proof.
  unfold rowById. induction t as [|x t IH]; simpl; [reflexivity|].
  destruct (Z.eqb (row_id x) i) eqn:E; simpl; [exact IH|].
  rewrite E. exact IH.
Qed.

(** A [remove] that returns has deleted the rows with the given id and no
    other: the node was stored, [findOne] of its id is NotFound afterwards,
    every other id reads as before, and the id sequence is untouched. *)
Theorem remove_then_findOne
    (rv : list Row -> Z -> option string) (i : Z) (st st' : Store) :
  remove rv i st = (Ok tt, st') ->
  rowById i (rows st) <> None
  /\ rows st' = filter (fun r => negb (Z.eqb (row_id r) i)) (rows st)
  /\ seq st' = seq st
  /\ findOne i st' = (Err (NotFoundException "Menu not found"), st')
  /\ forall j, j <> i -> rowById j (rows st') = rowById j (rows st).
Proof.
  rewrite remove_guard_dead. unfold bind. rewrite findOne_run.
  destruct (rowById i (rows st)) as [r|] eqn:Hr; [|discriminate].
  assert (Hid : row_id r = i).
  { unfold rowById in Hr. apply find_some in Hr as [_ H].
    apply Z.eqb_eq. assumption. }
  unfold repo_remove. simpl. rewrite Hid.
  destruct (rv (rows st) i); [discriminate|].
  intros [= <-]. simpl. split; [discriminate|].
  split; [reflexivity|]. split; [reflexivity|]. split.
  - rewrite findOne_run. simpl. rewrite rowById_filter_self. reflexivity.
  - intros j Hj. apply rowById_filter_other. assumption.
Qed.

Lemma remove_then_findOne_witness :
  Pg.remove 3 Pg.abcd = (Ok tt, mkStore [Pg.A; Pg.B; Pg.D] 4)
  /\ findOne 3 (mkStore [Pg.A; Pg.B; Pg.D] 4) =
     (Err (NotFoundException "Menu not found"), mkStore [Pg.A; Pg.B; Pg.D] 4)
  /\ rowById 2 (rows (mkStore [Pg.A; Pg.B; Pg.D] 4)) = rowById 2 (rows Pg.abcd).
Proof.
  assert (E : remove Schema.remove_violation 3 Pg.abcd =
              (Ok tt, mkStore [Pg.A; Pg.B; Pg.D] 4))
    by (vm_compute; reflexivity).
  split; [exact E|].
  destruct (@remove_then_findOne _ _ _ _ E) as (_ & _ & _ & Hf & Hother).
  split; [exact Hf|]. apply Hother. discriminate.
Defined.

(** ** [findFlat] *)

(** Consecutive windows of [L] elements, as many as cover the list, put end
    to end give the list. *)
Lemma windows_concat {A} (L : nat) (l : list A) : forall n,
  length l <= n * L ->
  flat_map (fun k => firstn L (skipn (k * L) l)) (List.seq 0 n) = l.
Proof.
  intros n. revert l. induction n as [|n IH]; intros l Hlen.
  - destruct l; [reflexivity | simpl in Hlen; lia].
  - simpl List.seq. simpl flat_map. rewrite <- seq_shift, flat_map_concat_map,
      map_map, <- flat_map_concat_map.
    rewrite (flat_map_ext _ (fun k => firstn L (skipn (k * L) (skipn L l)))).
    + rewrite IH; [apply firstn_skipn|]. rewrite length_skipn. lia.
    + intros k. rewrite skipn_skipn. f_equal. f_equal. lia.
Qed.

Lemma insertRow_perm le r l : Permutation (Db.insertRow le r l) (r :: l).
Proof.
  induction l as [|x l IH]; simpl; [reflexivity|].
  destruct (le r x); [reflexivity|].
  rewrite IH. apply perm_swap.
Qed.

(** The stable sort of the sample database permutes the rows. *)
Lemma Db_orderBy_perm k d l : Permutation (Db.orderBy k d l) l.
Proof.
  unfold Db.orderBy.
  assert (H : Permutation (fold_right (Db.insertRow (Db.rowLeb k)) [] l) l).
  { induction l as [|x l IH]; simpl; [reflexivity|].
    rewrite insertRow_perm. constructor. assumption. }
  destruct d; [assumption|]. rewrite <- H at 2. symmetry. apply Permutation_rev.
Qed.

Lemma findFlat_run ilike findAndCount q st :
  findFlat ilike findAndCount q st =
  (let page := orDefault (QueryMenuDto.page q) 1%Z in
   let limit := Z.min (orDefault (QueryMenuDto.limit q) 20%Z) 100 in
   let found :=
     findAndCount (searchWhere ilike (QueryMenuDto.search q))
       (orDefault (QueryMenuDto.sortBy q) QueryMenuDto.by_createdAt)
       (upperCase (orDefault (QueryMenuDto.sortOrder q) QueryMenuDto.asc))
       ((page - 1) * limit)%Z limit (rows st) in
   (Ok (mkFlatList (fst found)
          (mkPagination page limit (snd found) (ceilDiv (snd found) limit))),
    st)).
Proof. reflexivity. Qed.

(** The page [findFlat] answers.  For a page number and a limit of at least
    1, on a database that orders by permuting: the limit is capped at 100
    (20 when the request has none, page 1 when it has none), the total is
    the number of rows that match the search whatever the page, and the page
    holds [limit] items, or what is left of the matching rows behind the
    earlier pages, or nothing. *)
Theorem findFlat_page
    (ilike : jsstring -> jsstring -> bool)
    (findAndCount : (Row -> bool) -> QueryMenuDto.SortBy -> Direction ->
                    Z -> Z -> list Row -> list Menu * Z)
    (orderBy : QueryMenuDto.SortBy -> Direction -> list Row -> list Row)
    (q : QueryMenuDto.t) (st : Store) :
  (forall w k d skip take t, (0 <= skip)%Z -> (1 <= take)%Z ->
     findAndCount w k d skip take t = window orderBy w k d skip take t) ->
  (forall k d l, Permutation (orderBy k d l) l) ->
  let page := orDefault (QueryMenuDto.page q) 1%Z in
  let limit := Z.min (orDefault (QueryMenuDto.limit q) 20%Z) 100 in
  (1 <= page)%Z -> (1 <= limit)%Z ->
  exists fl,
    findFlat ilike findAndCount q st = (Ok fl, st)
    /\ pg_page (pagination fl) = page
    /\ pg_limit (pagination fl) = limit /\ (limit <= 100)%Z
    /\ pg_total (pagination fl) =
       Z.of_nat (length (filter (searchWhere ilike (QueryMenuDto.search q))
                                (rows st)))
    /\ Z.of_nat (length (items fl)) =
       Z.max 0 (Z.min limit (pg_total (pagination fl) - (page - 1) * limit)).
Proof.
  intros Hwin Hperm page limit Hpage Hlimit.
  rewrite findFlat_run. fold page. fold limit. cbv zeta.
  rewrite Hwin by nia. unfold window. simpl.
  eexists. split; [reflexivity|]. simpl.
  split; [reflexivity|]. split; [reflexivity|].
  split; [subst limit; lia|]. split; [reflexivity|].
  rewrite length_map, length_firstn, length_skipn.
  rewrite (Permutation_length (Hperm _ _ _)).
  nia.
Qed.

Lemma findFlat_page_witness :
  exists fl,
    Db.findFlat Db.page3 Db.twentyFive = (Ok fl, Db.twentyFive)
    /\ pg_total (pagination fl) = 25%Z
    /\ Z.of_nat (length (items fl)) = 5%Z.
Proof.
  destruct (@findFlat_page Db.ilike (window Db.orderBy) Db.orderBy
              Db.page3 Db.twentyFive
              (fun _ _ _ _ _ _ _ _ => eq_refl) Db_orderBy_perm)
    as (fl & Hrun & _ & _ & _ & Htotal & Hlen);
    [vm_compute; discriminate | vm_compute; discriminate |].
  exists fl. split; [exact Hrun|].
  assert (Ht : pg_total (pagination fl) = 25%Z)
    by (rewrite Htotal; reflexivity).
  split; [exact Ht|]. rewrite Hlen, Ht. reflexivity.
Defined.



Lemma flat_map_map {A B C} (g : B -> C) (f : A -> list B) (l : list A) :
  flat_map (fun k => map g (f k)) l = map g (flat_map f l).
Proof.
  induction l as [|x l IH]; simpl; [reflexivity|].
  rewrite map_app, IH. reflexivity.
Qed.

(** The pages cover the listing.  For a limit of at least 1, on a database
    that orders by permuting, the items of the pages 1 to [totalPages] put
    end to end are the matching rows in the requested order: every matching
    row is on one page, none is on two. *)
Theorem findFlat_pages_cover
    (ilike : jsstring -> jsstring -> bool)
    (findAndCount : (Row -> bool) -> QueryMenuDto.SortBy -> Direction ->
                    Z -> Z -> list Row -> list Menu * Z)
    (orderBy : QueryMenuDto.SortBy -> Direction -> list Row -> list Row)
    (q : QueryMenuDto.t) (st : Store) (n : Z) :
  (forall w k d skip take t, (0 <= skip)%Z -> (1 <= take)%Z ->
     findAndCount w k d skip take t = window orderBy w k d skip take t) ->
  (forall k d l, Permutation (orderBy k d l) l) ->
  let limit := Z.min (orDefault (QueryMenuDto.limit q) 20%Z) 100 in
  let matching := filter (searchWhere ilike (QueryMenuDto.search q))
                         (rows st) in
  let sorted :=
    orderBy (orDefault (QueryMenuDto.sortBy q) QueryMenuDto.by_createdAt)
            (upperCase (orDefault (QueryMenuDto.sortOrder q) QueryMenuDto.asc))
            matching in
  (1 <= limit)%Z ->
  ceilDiv (Z.of_nat (length matching)) limit = Some n ->
  flat_map (fun k => itemsOf (findFlat ilike findAndCount
                                (withPage q (Z.of_nat k + 1)) st))
           (List.seq 0 (Z.to_nat n))
  = map (entity_with_relations (rows st)) sorted
  /\ Permutation sorted matching.
Proof.
  intros Hwin Hperm limit matching sorted Hlimit Hn.
  split; [|apply Hperm].
  rewrite (flat_map_ext _
             (fun k => map (entity_with_relations (rows st))
                         (firstn (Z.to_nat limit)
                            (skipn (k * Z.to_nat limit) sorted)))).
  - rewrite flat_map_map. f_equal. apply windows_concat.
    unfold sorted. rewrite (Permutation_length (Hperm _ _ _)).
    unfold ceilDiv in Hn. destruct (Z.eqb_spec limit 0); [lia|].
    injection Hn as <-.
    pose proof (Z.div_mod (- Z.of_nat (length matching)) limit ltac:(lia))
      as Hdm.
    pose proof (Z.mod_pos_bound (- Z.of_nat (length matching)) limit
                  ltac:(lia)) as Hb.
    nia.
  - intros k. unfold itemsOf. rewrite findFlat_run. cbv zeta. simpl.
    fold limit. rewrite Hwin by nia. unfold window. simpl.
    fold matching. fold sorted.
    replace (Z.to_nat ((Z.of_nat k + 1 - 1) * limit))
      with (k * Z.to_nat limit) by nia.
    reflexivity.
Qed.

Lemma findFlat_pages_cover_witness :
  flat_map (fun k => itemsOf (Db.findFlat (withPage Db.page3 (Z.of_nat k + 1))
                                Db.twentyFive))
           (List.seq 0 3)
  = map (entity_with_relations (rows Db.twentyFive)) (rows Db.twentyFive).
Proof.
  destruct (@findFlat_pages_cover Db.ilike (window Db.orderBy) Db.orderBy
              Db.page3 Db.twentyFive 3
              (fun _ _ _ _ _ _ _ _ => eq_refl) Db_orderBy_perm)
    as [Hcover _]; [vm_compute; discriminate | reflexivity |].
  exact Hcover.
Defined.

(** The search matches the name or the slug, in either case: on the tree
    [A -> B -> C] with root [D], ["A"] finds [A] by its name and [B] by its
    slug ["a-2"]; the empty search finds every row. *)
Example findFlat_search_examples :
  (exists fl, Db.findFlat (QueryMenuDto.mk None None (Some (str "A")) None None)
                Pg.abcd = (Ok fl, Pg.abcd)
              /\ pg_total (pagination fl) = 2%Z
              /\ map id (items fl) = [Some 1%Z; Some 2%Z])
  /\ (exists fl, Db.findFlat (QueryMenuDto.mk None None (Some []) None None)
                   Pg.abcd = (Ok fl, Pg.abcd)
                 /\ pg_total (pagination fl) = 4%Z
                 /\ pg_limit (pagination fl) = 20%Z
                 /\ pg_totalPages (pagination fl) = Some 1%Z).
Proof.
  split; eexists; (split; [vm_compute; reflexivity|]); repeat split.
Qed.
